(** * A shallow embedding of [services/vector_service.py]

    The development follows the class [VectorService]: the text helpers
    ([_preprocess_text], [_split_text]), the catalogue of documents and
    metadata, and the public methods [add_document], [search_similar],
    [get_document], [delete_document] and [rebuild_index].

    Conventions.
    - A Python [str] is a [string]; one [ascii] stands for one code point
      (the code points below 256).
    - A Python [int] is a [Z]; the similarity scores, which the service
      only compares and copies, are rationals.
    - An attribute dictionary (the per-document [metadata] value, on which
      the code never iterates) is a [gmap string value]; the two catalogues
      [self.documents] and [self.metadata], on which the code iterates in
      insertion order, are association lists with the update discipline of
      a Python [dict].
    - Every entry of [self.metadata] holds a dictionary object of its
      own (the callers build a new dictionary for each [add_document]), so
      an assignment into the object that [self.metadata[doc_id]] holds is
      an update of that entry, visible at once through the catalogue.
    - Methods run in a state-and-exception monad in which a raised
      exception keeps the mutations made before it, as in Python.
    - The files written by [_save_index] are outside the model: the
      method returns nothing and raises nothing. *)

From Stdlib Require Import ZArith QArith Bool Ascii String List Lia.
From stdpp Require Import gmap strings list fin_maps pretty.

Set Default Proof Using "Type".

Open Scope Z_scope.

(** ** Python strings *)

Module Str.

Definition code (c : ascii) : nat := nat_of_ascii c.

Definition in_range (lo hi : string) (c : ascii) : bool :=
  match lo, hi with
  | String l EmptyString, String h EmptyString =>
      ((code l <=? code c) && (code c <=? code h))%nat
  | _, _ => false
  end.

Fixpoint one_of (s : string) (c : ascii) : bool :=
  match s with
  | EmptyString => false
  | String d s' => Ascii.eqb c d || one_of s' c
  end.

(** [str.isspace] on one code point, which is also the class [\s] of
    [re] on [str] patterns: TAB..CR, FS..US, SPACE, NEL and NBSP are the
    code points below 256 that qualify. *)
Definition is_space (c : ascii) : bool :=
  let n := code c in
  ((9 <=? n) && (n <=? 13) || (28 <=? n) && (n <=? 32)
   || (n =? 133) || (n =? 160))%nat.

(** The class [\w] of [re] on [str] patterns: alphanumeric code points
    and the underscore. *)
Definition is_word (c : ascii) : bool :=
  let n := code c in
  in_range "a" "z" c || in_range "A" "Z" c || in_range "0" "9" c
  || one_of "_" c
  || ((n =? 170) || (n =? 178) || (n =? 179) || (n =? 181) || (n =? 185)
      || (n =? 186) || (188 <=? n) && (n <=? 190)
      || (192 <=? n) && (n <=? 214) || (216 <=? n) && (n <=? 246)
      || (248 <=? n) && (n <=? 255))%nat.

Definition len (s : string) : Z := Z.of_nat (String.length s).

Definition is_empty (s : string) : bool :=
  match s with EmptyString => true | String _ _ => false end.

Fixpoint lstrip (s : string) : string :=
  match s with
  | EmptyString => EmptyString
  | String c s' => if is_space c then lstrip s' else s
  end.

Fixpoint rstrip (s : string) : string :=
  match s with
  | EmptyString => EmptyString
  | String c s' =>
      let r := rstrip s' in
      if is_space c && is_empty r then EmptyString else String c r
  end.

(** [s.strip()] *)
Definition strip (s : string) : string := rstrip (lstrip s).

(** [s.split(sep)] for a one-character separator. *)
Fixpoint split (sep : ascii) (s : string) : list string :=
  match s with
  | EmptyString => [EmptyString]
  | String c s' =>
      if Ascii.eqb c sep then EmptyString :: split sep s'
      else match split sep s' with
           | p :: ps => String c p :: ps
           | [] => [String c EmptyString]
           end
  end.

Fixpoint skip (n : nat) (s : string) : string :=
  match n, s with
  | O, _ => s
  | S n', String _ s' => skip n' s'
  | S _, EmptyString => EmptyString
  end.

(** [s[i:]] with Python's treatment of a negative or too large [i]. *)
Definition slice_from (i : Z) (s : string) : string :=
  let start := if i <? 0 then Z.max (len s + i) 0 else Z.min i (len s) in
  skip (Z.to_nat start) s.

Definition nl : ascii := ascii_of_nat 10.
Definition newline : string := String nl EmptyString.

End Str.

(** ** The fragment of [re] used by the service

    A backtracking matcher in continuation-passing style with the
    priorities of Python's engine: alternatives are tried left to right and
    repetitions are greedy.  [prev] is the character before the current
    position, which [\b] needs. *)

Module Re.

Inductive regex : Type :=
| Eps
| Chr (p : ascii -> bool)
| Cat (r1 r2 : regex)
| Alt (r1 r2 : regex)
| Star (r : regex)
| WordB.

Fixpoint Lit (s : string) : regex :=
  match s with
  | EmptyString => Eps
  | String c s' => Cat (Chr (Ascii.eqb c)) (Lit s')
  end.

Definition Opt (r : regex) : regex := Alt r Eps.
Definition Plus (r : regex) : regex := Cat r (Star r).
Fixpoint AtLeast (n : nat) (r : regex) : regex :=
  match n with
  | O => Star r
  | S n' => Cat r (AtLeast n' r)
  end.

Definition Any (ps : list (ascii -> bool)) : regex :=
  Chr (fun c => existsb (fun p => p c) ps).

Definition pos : Type := option ascii * string.

Definition word_before (prev : option ascii) : bool :=
  match prev with Some c => Str.is_word c | None => false end.

Definition word_after (s : string) : bool :=
  match s with String c _ => Str.is_word c | EmptyString => false end.

Fixpoint rmatch (r : regex) (prev : option ascii) (s : string)
    (k : option ascii -> string -> option pos) {struct r} : option pos :=
  match r with
  | Eps => k prev s
  | Chr p =>
      match s with
      | String c s' => if p c then k (Some c) s' else None
      | EmptyString => None
      end
  | Cat r1 r2 => rmatch r1 prev s (fun prev' s' => rmatch r2 prev' s' k)
  | Alt r1 r2 =>
      match rmatch r1 prev s k with
      | Some e => Some e
      | None => rmatch r2 prev s k
      end
  | Star r1 =>
      (fix loop (fuel : nat) (prev : option ascii) (s : string)
           {struct fuel} : option pos :=
         match fuel with
         | O => k prev s
         | S fuel' =>
             match rmatch r1 prev s (fun prev' s' =>
                       if (String.length s' <? String.length s)%nat
                       then loop fuel' prev' s' else None) with
             | Some e => Some e
             | None => k prev s
             end
         end) (String.length s) prev s
  | WordB => if xorb (word_before prev) (word_after s) then k prev s else None
  end.

(** [re.match] at the current position: the end of the first match in
    backtracking order. *)
Definition match_here (r : regex) (prev : option ascii) (s : string) : option pos :=
  rmatch r prev s (fun prev' s' => Some (prev', s')).

(** [re.sub(r, repl, s)] for a literal replacement: leftmost
    non-overlapping matches, scanning from left to right. *)
Fixpoint sub_from (fuel : nat) (r : regex) (repl : string)
    (prev : option ascii) (s : string) : string :=
  match fuel with
  | O => s
  | S fuel' =>
      match match_here r prev s with
      | Some (prev', s') =>
          if (String.length s' <? String.length s)%nat
          then repl +:+ sub_from fuel' r repl prev' s'
          else repl +:+
               match s with
               | EmptyString => EmptyString
               | String c t => String c (sub_from fuel' r repl (Some c) t)
               end
      | None =>
          match s with
          | EmptyString => EmptyString
          | String c t => String c (sub_from fuel' r repl (Some c) t)
          end
      end
  end.

Definition sub (r : regex) (repl : string) (s : string) : string :=
  sub_from (S (String.length s)) r repl None s.

End Re.

(** ** The text helpers of [VectorService] *)

Import Str Re.

(** [r'\s+'] *)
Definition ws_pattern : regex := Plus (Chr is_space).

(** [r'http[s]?://(?:[a-zA-Z]|[0-9]|[$-_@.&+]|[!*\\(\\),]|(?:%[0-9a-fA-F][0-9a-fA-F]))+'] *)
Definition hexdigit : regex :=
  Any [in_range "0" "9"; in_range "a" "f"; in_range "A" "F"].

Definition url_pattern : regex :=
  Cat (Lit "http") (Cat (Opt (Any [one_of "s"])) (Cat (Lit "://")
    (Plus (Alt (Any [in_range "a" "z"; in_range "A" "Z"])
          (Alt (Any [in_range "0" "9"])
          (Alt (Any [in_range "$" "_"; one_of "@.&+"])
          (Alt (Any [one_of "!*\(\),"])
               (Cat (Lit "%") (Cat hexdigit hexdigit))))))))).

(** [r'\b[A-Za-z0-9._%+-]+@[A-Za-z0-9.-]+\.[A-Z|a-z]{2,}\b'] *)
Definition email_pattern : regex :=
  Cat WordB
 (Cat (Plus (Any [in_range "A" "Z"; in_range "a" "z"; in_range "0" "9"; one_of "._%+-"]))
 (Cat (Lit "@")
 (Cat (Plus (Any [in_range "A" "Z"; in_range "a" "z"; in_range "0" "9"; one_of ".-"]))
 (Cat (Lit ".")
 (Cat (AtLeast 2 (Any [in_range "A" "Z"; one_of "|"; in_range "a" "z"]))
      WordB))))).

Definition _preprocess_text (text : string) : string :=
  let text := Re.sub ws_pattern " " text in
  let text := Re.sub url_pattern "" text in
  let text := Re.sub email_pattern "" text in
  strip text.

(** [x < y] on the rationals, as a boolean *)
Definition Qltb (x y : Q) : bool := negb (Qle_bool y x).

(** [current_chunk[-overlap*4:] if len(current_chunk) > overlap*4 else current_chunk] *)
Definition overlap_text (overlap : Z) (current_chunk : string) : string :=
  if overlap * 4 <? len current_chunk
  then slice_from (- overlap * 4) current_chunk
  else current_chunk.

(** One iteration of the loop of [_split_text]; the loop state is
    [(chunks, current_chunk)]. *)
Definition split_step (max_tokens overlap : Z)
    (acc : list string * string) (paragraph : string) : list string * string :=
  let '(chunks, current_chunk) := acc in
  let paragraph := strip paragraph in
  if is_empty paragraph then acc
  else if Qltb (inject_Z max_tokens) (len (current_chunk +:+ paragraph) # 4) then
    if negb (is_empty current_chunk) then
      let chunks := chunks ++ [strip current_chunk] in
      let overlap_text := overlap_text overlap current_chunk in
      (chunks, overlap_text +:+ newline +:+ paragraph)
    else (chunks, paragraph)
  else
    (chunks,
     current_chunk +:+
       (if negb (is_empty current_chunk) then newline +:+ paragraph else paragraph)).

Definition _split_text (text : string) (max_tokens overlap : Z) : list string :=
  let paragraphs := split nl text in
  let '(chunks, current_chunk) :=
    fold_left (split_step max_tokens overlap) paragraphs ([], EmptyString) in
  if negb (is_empty current_chunk) then chunks ++ [strip current_chunk] else chunks.


Arguments _preprocess_text : simpl never.
Arguments _split_text : simpl never.

(** A text without a line break: a single paragraph for [_split_text]. *)
Definition no_newline (s : string) : Prop := split nl s = [s].

(** [c * n] *)
Fixpoint repeat_char (c : ascii) (n : nat) : string :=
  match n with
  | O => EmptyString
  | S n' => String c (repeat_char c n')
  end.

(** ** Values and dictionaries *)

(** The attribute values the service stores or tests: [None], booleans,
    integers and strings. *)
Inductive value : Type :=
| VNone
| VBool (b : bool)
| VInt (z : Z)
| VStr (s : string).

Abbreviation attrs := (gmap string value).

(** [bool(v)] *)
Definition truthy (v : value) : bool :=
  match v with
  | VNone => false
  | VBool b => b
  | VInt z => negb (z =? 0)
  | VStr s => negb (is_empty s)
  end.

(** The integer a value stands for in arithmetic and comparisons with an
    [int] ([bool] is a subclass of [int]); [None] and strings raise
    [TypeError] there. *)
Definition as_int (v : value) : option Z :=
  match v with
  | VInt z => Some z
  | VBool b => Some (if b then 1 else 0)
  | VNone | VStr _ => None
  end.

(** [d.update(kvs)] *)
Definition update (kvs : list (string * value)) (d : attrs) : attrs :=
  fold_left (fun d kv => <[kv.1 := kv.2]> d) kvs d.

(** A Python [dict] with string keys whose iteration order matters:
    assigning to a present key keeps its place, a new key goes last. *)
Module Dict.
Section Ops.
Context {V : Type}.

Fixpoint get (k : string) (d : list (string * V)) : option V :=
  match d with
  | [] => None
  | (k', v) :: d' => if String.eqb k k' then Some v else get k d'
  end.

Definition mem (k : string) (d : list (string * V)) : bool :=
  match get k d with Some _ => true | None => false end.

(** [d[k] = v] *)
Fixpoint set (k : string) (v : V) (d : list (string * V)) : list (string * V) :=
  match d with
  | [] => [(k, v)]
  | (k', v') :: d' =>
      if String.eqb k k' then (k, v) :: d' else (k', v') :: set k v d'
  end.

(** The in-place change of the object stored under [k]: nothing
    happens to the dictionary itself, and nothing at all when [k]
    is absent. *)
Fixpoint mutate (k : string) (f : V -> V) (d : list (string * V)) : list (string * V) :=
  match d with
  | [] => []
  | (k', v') :: d' =>
      if String.eqb k k' then (k', f v') :: d' else (k', v') :: mutate k f d'
  end.

Definition keys (d : list (string * V)) : list string := map fst d.
End Ops.
End Dict.

Abbreviation dict V := (list (string * V)).

(** ** The collaborators: the embedding model and the similarity index

    [SentenceTransformer] and [faiss.IndexFlatIP] are libraries.  The index
    stores the vectors it is given in the order of arrival, so it is the
    list of its vectors; what its [search] answers is left to the
    instance. *)
Class Backend : Type := {
  vec : Type;
  (** [self.model_name] *)
  model_name : string;
  (** the embedding of one text *)
  embed : string -> vec;
  (** [index.search(x, k)]: for each query of the batch [x] the row of
      [(score, position)] pairs, or [None] when the library raises *)
  index_search : list vec -> list vec -> Z -> option (list (list (Q * Z)))
}.

(** What the service expects of [index.search]: a row never has more
    than the [k] entries asked for. *)
Class SearchBounded `{Backend} : Prop :=
  search_bounded : forall ix queries k rows row,
    index_search ix queries k = Some rows -> row ∈ rows ->
    (length row <= Z.to_nat k)%nat.

(** What a call finds in its environment: the clock, and whether the
    embedding model answers on a given batch of texts or raises.  In
    [add_document] and [rebuild_index] the vectors go to [index.add] right
    away, with no assignment in between, so a batch that [index.add] would
    refuse counts as a batch on which the model raises. *)
Record env : Type := {
  now : string;
  encode_ok : list string -> bool
}.

(** ** The store *)

(** The value of [self.documents[doc_id]] *)
Record doc_data : Type := {
  text : string;
  processed_text : string;
  chunks : list string;
  chunk_count : Z
}.

Record store `{Backend} : Type := {
  index : list vec;
  metadata : dict attrs;
  documents : dict doc_data;
  id_to_index : dict Z
}.

(** One entry of the list [search_similar] returns *)
Record hit : Type := {
  r_doc_id : string;
  r_score : Q;
  r_content : string;
  r_metadata : attrs;
  r_chunk_hit : string
}.

(** The dictionary [get_document] returns *)
Record doc_view : Type := {
  g_doc_id : string;
  g_content : string;
  g_metadata : attrs;
  g_chunks : list string
}.

(** ** Exceptions and the method monad *)

Inductive exn : Type :=
| EmbedFailure
| KeyError
| TypeError
| IndexError
| FaissError.

Inductive result (A : Type) : Type :=
| Ok (a : A)
| Raise (e : exn).
Arguments Ok {A} a.
Arguments Raise {A} e.

Section Monad.
Context `{Backend}.

Definition M (A : Type) : Type := store -> result A * store.

Definition ret {A} (a : A) : M A := fun s => (Ok a, s).

Definition raise {A} (e : exn) : M A := fun s => (Raise e, s).

Definition bind {A B} (m : M A) (k : A -> M B) : M B :=
  fun s =>
    match m s with
    | (Ok a, s') => k a s'
    | (Raise e, s') => (Raise e, s')
    end.

Definition get_store : M store := fun s => (Ok s, s).

Definition modify (f : store -> store) : M unit := fun s => (Ok tt, f s).

(** a computation that reads the store and may raise *)
Definition lift {A} (r : store -> result A) : M A := fun s => (r s, s).

(** [try: body  except Exception: handler] *)
Definition try_except {A} (body : M A) (handler : exn -> M A) : M A :=
  fun s =>
    match body s with
    | (Ok a, s') => (Ok a, s')
    | (Raise e, s') => handler e s'
    end.
End Monad.

Declare Scope py_scope.
Delimit Scope py_scope with py.
Notation "x <- m ;; k" := (bind m (fun x => k))
  (at level 100, m at next level, right associativity) : py_scope.
Notation "m ;; k" := (bind m (fun _ => k))
  (at level 100, right associativity) : py_scope.
Open Scope py_scope.

(** ** Reading lists of results *)

(** the identifiers of the documents a search returned *)
Definition found (r : result (list hit)) : option (list string) :=
  match r with
  | Ok res => Some (map r_doc_id res)
  | Raise _ => None
  end.

(** two lists of results that differ at most in the metadata they carry *)
Definition same_hits (res res' : list hit) : Prop :=
  map (fun h => (r_doc_id h, r_score h, r_content h, r_chunk_hit h)) res
  = map (fun h => (r_doc_id h, r_score h, r_content h, r_chunk_hit h)) res'.

Definition same_outcome (r r' : result (list hit)) : Prop :=
  match r, r' with
  | Ok res, Ok res' => same_hits res res'
  | Raise _, Raise _ => True
  | _, _ => False
  end.

(** ** The methods of [VectorService] *)

Section Service.
Context `{Backend}.

(** The constructor without saved files: [faiss.IndexFlatIP(vector_dim)]
    and three empty dictionaries. *)
Definition empty_store : store :=
  {| index := []; metadata := []; documents := []; id_to_index := [] |}.

(** [self.index.ntotal] *)
Definition ntotal (s : store) : Z := Z.of_nat (length (index s)).

Definition set_index (ix : list vec) (s : store) : store :=
  {| index := ix; metadata := metadata s; documents := documents s;
     id_to_index := id_to_index s |}.

Definition set_metadata (m : dict attrs) (s : store) : store :=
  {| index := index s; metadata := m; documents := documents s;
     id_to_index := id_to_index s |}.

Definition set_documents (d : dict doc_data) (s : store) : store :=
  {| index := index s; metadata := metadata s; documents := d;
     id_to_index := id_to_index s |}.

Definition set_id_to_index (m : dict Z) (s : store) : store :=
  {| index := index s; metadata := metadata s; documents := documents s;
     id_to_index := m |}.

(** [self.embeddings.encode(texts)]: one vector per text, or the
    exception of the model. *)
Definition encode (e : env) (texts : list string) : M (list vec) :=
  if encode_ok e texts then ret (map embed texts) else raise EmbedFailure.

(** [self.index.add(vectors)] *)
Definition index_add (vectors : list vec) : M unit :=
  modify (fun s => set_index (index s ++ vectors) s).

(** [self.documents[doc_id] = d] *)
Definition store_document (doc_id : string) (d : doc_data) : M unit :=
  modify (fun s => set_documents (Dict.set doc_id d (documents s)) s).

(** [self.metadata[doc_id] = m] *)
Definition store_metadata (doc_id : string) (m : attrs) : M unit :=
  modify (fun s => set_metadata (Dict.set doc_id m (metadata s)) s).

(** An assignment into the dictionary object that [self.metadata[doc_id]]
    holds; [f] is its effect on that object. *)
Definition mutate_metadata (doc_id : string) (f : attrs -> attrs) : M unit :=
  modify (fun s => set_metadata (Dict.mutate doc_id f (metadata s)) s).

(** [_save_index] writes the three files and swallows every exception of
    its own; it returns nothing and touches nothing in memory. *)
Definition _save_index : M unit := ret tt.

(** [f"{doc_id}_chunk_{i}"] *)
Definition chunk_key (doc_id : string) (i : nat) : string :=
  doc_id +:+ "_chunk_" +:+ pretty i.

(** [for i in range(n): self.id_to_index[f"{doc_id}_chunk_{i}"] = start_index + i] *)
Definition map_chunks (doc_id : string) (start_index : Z) (n : nat) : M unit :=
  modify (fun s =>
    set_id_to_index
      (fold_left (fun m i => Dict.set (chunk_key doc_id i) (start_index + Z.of_nat i) m)
                 (seq 0 n) (id_to_index s)) s).

(** The keys [add_document] assigns itself. *)
Definition store_keys : list string :=
  ["doc_id"; "chunk_count"; "start_index"; "end_index"; "created_at"; "vector_model"].

Definition add_document (e : env) (doc_id text : string)
    (metadata : option attrs) : M bool :=
  try_except
    (s <- get_store ;;
     if Dict.mem doc_id (documents s) then ret true
     else
       let processed_text := _preprocess_text text in
       let chunks := _split_text processed_text 512 50 in
       vectors <- encode e chunks ;;
       s <- get_store ;;
       let start_index := ntotal s in
       index_add vectors ;;
       store_document doc_id
         {| text := text; processed_text := processed_text;
            chunks := chunks; chunk_count := Z.of_nat (length chunks) |} ;;
       (* metadata or {} *)
       let doc_metadata := match metadata with Some m => m | None => ∅ end in
       let doc_metadata :=
         update [("doc_id", VStr doc_id);
                 ("chunk_count", VInt (Z.of_nat (length chunks)));
                 ("start_index", VInt start_index);
                 ("end_index", VInt (start_index + Z.of_nat (length chunks) - 1));
                 ("created_at", VStr (now e));
                 ("vector_model", VStr model_name)] doc_metadata in
       store_metadata doc_id doc_metadata ;;
       map_chunks doc_id start_index (length chunks) ;;
       _save_index ;;
       ret true)
    (fun _ => ret false).

(** [a <= i <= b] for an integer [i]; the second comparison is only
    evaluated when the first holds. *)
Definition between (a : value) (i : Z) (b : value) : result bool :=
  match as_int a with
  | None => Raise TypeError
  | Some a' =>
      if a' <=? i then
        match as_int b with
        | None => Raise TypeError
        | Some b' => Ok (i <=? b')
        end
      else Ok false
  end.

Fixpoint find_doc (items : dict attrs) (index : Z) : result (option string) :=
  match items with
  | [] => Ok None
  | (doc_id, metadata) :: rest =>
      let start_idx := default (VInt (-1)) (metadata !! "start_index") in
      let end_idx := default (VInt (-1)) (metadata !! "end_index") in
      match between start_idx index end_idx with
      | Raise e => Raise e
      | Ok true => Ok (Some doc_id)
      | Ok false => find_doc rest index
      end
  end.

Definition _find_doc_by_index (s : store) (index : Z) : result (option string) :=
  find_doc (metadata s) index.

Definition _get_chunk_content (s : store) (doc_id : string) (index : Z) : result string :=
  let chunks := match Dict.get doc_id (documents s) with
                | Some d => chunks d
                | None => []
                end in
  let metadata := default ∅ (Dict.get doc_id (metadata s)) in
  let start_idx := default (VInt 0) (metadata !! "start_index") in
  match as_int start_idx with
  | None => Raise TypeError
  | Some start_idx =>
      let chunk_idx := index - start_idx in
      if (0 <=? chunk_idx) && (chunk_idx <? Z.of_nat (length chunks))
      then Ok (nth (Z.to_nat chunk_idx) chunks EmptyString)
      else Ok EmptyString
  end.

(** The loop of [search_similar] over [zip(scores[0], indices[0])]. *)
Fixpoint search_loop (s : store) (k : Z) (score_threshold : Q)
    (hits : list (Q * Z)) (results : list hit) (seen_docs : gset string)
    : result (list hit) :=
  match hits with
  | [] => Ok results
  | (score, idx) :: rest =>
      if Qltb score score_threshold
      then search_loop s k score_threshold rest results seen_docs
      else
        match _find_doc_by_index s idx with
        | Raise e => Raise e
        | Ok found =>
            match found with
            | Some doc_id =>
                if negb (is_empty doc_id) && negb (bool_decide (doc_id ∈ seen_docs))
                then
                  let seen_docs := seen_docs ∪ {[doc_id]} in
                  let content := match Dict.get doc_id (documents s) with
                                 | Some d => text d
                                 | None => EmptyString
                                 end in
                  let doc_metadata := default ∅ (Dict.get doc_id (metadata s)) in
                  match _get_chunk_content s doc_id idx with
                  | Raise e => Raise e
                  | Ok chunk =>
                      let results :=
                        results ++ [{| r_doc_id := doc_id; r_score := score;
                                       r_content := content;
                                       r_metadata := doc_metadata;
                                       r_chunk_hit := chunk |}] in
                      if Z.of_nat (length results) >=? k then Ok results
                      else search_loop s k score_threshold rest results seen_docs
                  end
                else search_loop s k score_threshold rest results seen_docs
            | None => search_loop s k score_threshold rest results seen_docs
            end
        end
  end.

Definition search_similar (e : env) (query : string) (k : Z)
    (score_threshold : Q) : M (list hit) :=
  try_except
    (s <- get_store ;;
     if ntotal s =? 0 then ret []
     else
       query_vector <- encode e [query] ;;
       rows <- lift (fun s =>
                 match index_search (index s) query_vector (Z.min (k * 2) (ntotal s)) with
                 | Some rows => Ok rows
                 | None => Raise FaissError
                 end) ;;
       match rows with
       | [] => raise IndexError
       | row :: _ => lift (fun s => search_loop s k score_threshold row [] ∅)
       end)
    (fun _ => ret []).

Definition get_document (doc_id : string) : M (option doc_view) :=
  s <- get_store ;;
  match Dict.get doc_id (documents s) with
  | None => ret None
  | Some d =>
      ret (Some {| g_doc_id := doc_id; g_content := text d;
                   g_metadata := default ∅ (Dict.get doc_id (metadata s));
                   g_chunks := chunks d |})
  end.

Definition delete_document (e : env) (doc_id : string) : M bool :=
  try_except
    (s <- get_store ;;
     if Dict.mem doc_id (documents s) then
       (if Dict.mem doc_id (metadata s) then
          mutate_metadata doc_id
            (fun m => <["deleted_at" := VStr (now e)]> (<["deleted" := VBool true]> m))
        else ret tt) ;;
       _save_index ;;
       ret true
     else ret false)
    (fun _ => ret false).

(** [not self.metadata.get(doc_id, {}).get("deleted", False)] *)
Definition is_active (s : store) (doc_id : string) : bool :=
  negb (truthy (default (VBool false)
                  (default ∅ (Dict.get doc_id (metadata s)) !! "deleted"))).

(** The comprehension that opens [rebuild_index]: [self.metadata[doc_id]]
    raises [KeyError] for a document without metadata. *)
Fixpoint active_docs (s : store) (docs : dict doc_data)
    : result (list (string * doc_data * attrs)) :=
  match docs with
  | [] => Ok []
  | (doc_id, doc_data) :: rest =>
      if is_active s doc_id then
        match Dict.get doc_id (metadata s) with
        | None => Raise KeyError
        | Some metadata =>
            match active_docs s rest with
            | Ok l => Ok ((doc_id, doc_data, metadata) :: l)
            | Raise e => Raise e
            end
        end
      else active_docs s rest
  end.

(** The four statements of the loop of [rebuild_index] on the metadata
    of one document: [start_index] and [end_index] are assigned,
    [deleted] and [deleted_at] are popped. *)
Definition rebuilt_metadata (start_index : Z) (n : nat) (metadata : attrs) : attrs :=
  delete "deleted_at"
    (delete "deleted"
       (<["end_index" := VInt (start_index + Z.of_nat n - 1)]>
          (<["start_index" := VInt start_index]> metadata))).

(** The loop of [rebuild_index].  [new_metadata] and [new_documents] are
    locals; [metadata] is the very object [self.metadata[doc_id]] holds,
    so that its assignments show in the store at once. *)
Fixpoint rebuild_loop (e : env) (todo : list (string * doc_data * attrs))
    (new_metadata : dict attrs) (new_documents : dict doc_data)
    : M (dict attrs * dict doc_data) :=
  match todo with
  | [] => ret (new_metadata, new_documents)
  | (doc_id, doc_data, metadata) :: rest =>
      let chunks := chunks doc_data in
      vectors <- encode e chunks ;;
      s <- get_store ;;
      let start_index := ntotal s in
      index_add vectors ;;
      let metadata := rebuilt_metadata start_index (length chunks) metadata in
      mutate_metadata doc_id (fun _ => metadata) ;;
      let new_metadata := Dict.set doc_id metadata new_metadata in
      let new_documents := Dict.set doc_id doc_data new_documents in
      map_chunks doc_id start_index (length chunks) ;;
      rebuild_loop e rest new_metadata new_documents
  end.

Definition rebuild_index (e : env) : M bool :=
  try_except
    (active_docs <- lift (fun s => active_docs s (documents s)) ;;
     modify (set_index []) ;;
     modify (set_id_to_index []) ;;
     new <- rebuild_loop e active_docs [] [] ;;
     modify (set_metadata new.1) ;;
     modify (set_documents new.2) ;;
     _save_index ;;
     ret true)
    (fun _ => ret false).

(** *** Runs of the public methods *)

Inductive call : Type :=
| AddDocument (e : env) (doc_id text : string) (metadata : option attrs)
| SearchSimilar (e : env) (query : string) (k : Z) (score_threshold : Q)
| GetDocument (doc_id : string)
| DeleteDocument (e : env) (doc_id : string)
| RebuildIndex (e : env).

(** the store a call leaves behind, whatever it returned *)
Definition step (s : store) (c : call) : store :=
  match c with
  | AddDocument e doc_id text metadata => (add_document e doc_id text metadata s).2
  | SearchSimilar e query k thr => (search_similar e query k thr s).2
  | GetDocument doc_id => (get_document doc_id s).2
  | DeleteDocument e doc_id => (delete_document e doc_id s).2
  | RebuildIndex e => (rebuild_index e s).2
  end.

Definition run (cs : list call) (s : store) : store := fold_left step cs s.

(** the stores the service can be in, starting empty *)
Definition reachable (s : store) : Prop := exists cs, s = run cs empty_store.

(** a run in which every [rebuild_index] went through and returned [True] *)
Fixpoint rebuilds_succeed (cs : list call) (s : store) : Prop :=
  match cs with
  | [] => True
  | c :: cs' =>
      match c with
      | RebuildIndex e => (rebuild_index e s).1 = Ok true
      | _ => True
      end /\ rebuilds_succeed cs' (step s c)
  end.

(** *** Position ranges *)

(** [(start_index, end_index)] as recorded in one metadata dictionary *)
Definition range_of (m : attrs) : option (Z * Z) :=
  match m !! "start_index", m !! "end_index" with
  | Some a, Some b =>
      match as_int a, as_int b with
      | Some a', Some b' => Some (a', b')
      | _, _ => None
      end
  | _, _ => None
  end.

Definition range (s : store) (doc_id : string) : option (Z * Z) :=
  match Dict.get doc_id (metadata s) with
  | Some m => range_of m
  | None => None
  end.

Definition covers (r : Z * Z) (p : Z) : Prop := r.1 <= p <= r.2.

(** [index[a : a + n]] *)
Definition segment (a : Z) (n : nat) (ix : list vec) : list vec :=
  take n (drop (Z.to_nat a) ix).

(** The range invariant: the recorded ranges are pairwise disjoint; the
    range of a live document holds the embeddings of its chunks, in
    order; and the ranges of all recorded documents, live or tombstoned,
    cover exactly the positions of the index. *)
Definition range_invariant (s : store) : Prop :=
  (forall id1 id2 r1 r2 p,
      id1 <> id2 -> range s id1 = Some r1 -> range s id2 = Some r2 ->
      covers r1 p -> ~ covers r2 p)
  /\ (forall doc_id d,
        Dict.get doc_id (documents s) = Some d -> is_active s doc_id = true ->
        exists a,
          0 <= a
          /\ range s doc_id = Some (a, a + Z.of_nat (length (chunks d)) - 1)
          /\ segment a (length (chunks d)) (index s) = map embed (chunks d))
  /\ (forall p, 0 <= p < ntotal s <->
                exists doc_id r, range s doc_id = Some r /\ covers r p).

(** *** Rebuilding, as the specification words it

    Every non-tombstoned document, in catalogue order, is chunked and
    embedded again from its stored raw text; the vectors go to a fresh
    index, and the documents get new contiguous ranges.  Tombstoned
    documents are left out. *)

Definition live_documents (s : store) : dict doc_data :=
  List.filter (fun p => is_active s p.1) (documents s).

Definition rechunk (raw_text : string) : list string :=
  _split_text (_preprocess_text raw_text) 512 50.





(** *** What the loop of [rebuild_index] computes

    The two local dictionaries after the loop has gone through [todo],
    and the entries it adds in order. *)

Fixpoint fold_metadata (start : Z) (todo : list (string * doc_data * attrs))
    (new_metadata : dict attrs) : dict attrs :=
  match todo with
  | [] => new_metadata
  | (doc_id, d, m) :: rest =>
      fold_metadata (start + Z.of_nat (length (chunks d))) rest
        (Dict.set doc_id (rebuilt_metadata start (length (chunks d)) m) new_metadata)
  end.

Definition fold_documents (todo : list (string * doc_data * attrs))
    (new_documents : dict doc_data) : dict doc_data :=
  fold_left (fun nd x => Dict.set x.1.1 x.1.2 nd) todo new_documents.

Fixpoint layout (start : Z) (todo : list (string * doc_data * attrs)) : dict attrs :=
  match todo with
  | [] => []
  | (doc_id, d, m) :: rest =>
      (doc_id, rebuilt_metadata start (length (chunks d)) m)
        :: layout (start + Z.of_nat (length (chunks d))) rest
  end.

Definition vectors_of (docs : dict doc_data) : list vec :=
  concat (map (fun p => map embed (chunks p.2)) docs).

(** *** What the loop of [search_similar] maintains about [results] *)
Definition hit_ok (s : store) (score_threshold : Q) (h : hit) : Prop :=
  (score_threshold <= r_score h)%Q
  /\ r_metadata h = default ∅ (Dict.get (r_doc_id h) (metadata s)).

(** the store after one turn of the loop of [rebuild_index] *)
Definition turn (doc_id : string) (d : doc_data) (m : attrs) (s : store) : store :=
  set_id_to_index
    (fold_left
       (fun ids i => Dict.set (chunk_key doc_id i) (ntotal s + Z.of_nat i) ids)
       (seq 0 (length (chunks d))) (id_to_index s))
    (set_metadata
       (Dict.mutate doc_id
          (fun _ => rebuilt_metadata (ntotal s) (length (chunks d)) m) (metadata s))
       (set_index (index s ++ map embed (chunks d)) s)).

(** *** Invariants of the reachable stores *)

(** The catalogues agree on their keys and every document carries the
    chunks of its own text. *)
Definition well_formed (s : store) : Prop :=
  NoDup (Dict.keys (documents s))
  /\ (forall doc_id, is_Some (Dict.get doc_id (documents s)) ->
                     is_Some (Dict.get doc_id (metadata s)))
  /\ Forall (fun p => chunks p.2 = rechunk (text p.2)) (documents s).

(** The catalogues list the same documents in the same order, and the
    ranges follow each other from [start] on through the vectors [ix],
    each holding the embeddings of the chunks of its document. *)
Fixpoint laid_out (start : Z) (docs : dict doc_data) (metas : dict attrs)
    (ix : list vec) : Prop :=
  match docs, metas with
  | [], [] => ix = []
  | (doc_id, d) :: docs', (doc_id', m) :: metas' =>
      doc_id = doc_id'
      /\ range_of m = Some (start, start + Z.of_nat (length (chunks d)) - 1)
      /\ take (length (chunks d)) ix = map embed (chunks d)
      /\ laid_out (start + Z.of_nat (length (chunks d))) docs' metas'
           (drop (length (chunks d)) ix)
  | _, _ => False
  end.

Definition contiguous (s : store) : Prop :=
  NoDup (Dict.keys (documents s))
  /\ laid_out 0 (documents s) (metadata s) (index s).

End Service.

(** ** A small instance

    Texts are embedded by counting the letters [a] and [b]; the index
    answers with the [k] best inner products, the earlier position first
    among equals, and refuses [k <= 0] as faiss does. *)
Module Toy.

Fixpoint count (c : ascii) (s : string) : Z :=
  match s with
  | EmptyString => 0
  | String d s' => (if Ascii.eqb c d then 1 else 0) + count c s'
  end.

Definition letters (s : string) : list Z := [count "a" s; count "b" s].

Fixpoint dot (u v : list Z) : Z :=
  match u, v with
  | x :: u', y :: v' => x * y + dot u' v'
  | _, _ => 0
  end.

Fixpoint insert_desc (h : Q * Z) (l : list (Q * Z)) : list (Q * Z) :=
  match l with
  | [] => [h]
  | h' :: l' => if Qltb (fst h) (fst h') then h' :: insert_desc h l' else h :: l
  end.

Definition ranked (ix : list (list Z)) (q : list Z) : list (Q * Z) :=
  fold_right insert_desc []
    (imap (fun i v => (inject_Z (dot q v), Z.of_nat i)) ix).

Definition best (ix : list (list Z)) (queries : list (list Z)) (k : Z)
    : option (list (list (Q * Z))) :=
  if k <=? 0 then None
  else Some (map (fun q => take (Z.to_nat k) (ranked ix q)) queries).

#[export] Instance backend : Backend :=
  {| vec := list Z; model_name := "all-MiniLM-L6-v2";
     embed := letters; index_search := best |}.

Definition up : env := {| now := "2024-01-01T00:00:00"; encode_ok := fun _ => true |}.
Definition down : env := {| now := "2024-01-02T00:00:00"; encode_ok := fun _ => false |}.

(** the model answers, except on the batch [["cab"]] *)
Definition flaky : env :=
  {| now := "2024-01-03T00:00:00";
     encode_ok := fun texts => negb (bool_decide (texts = ["cab"])) |}.

Definition one_doc : store :=
  run [AddDocument up "d1" "banana" None] empty_store.

Definition d1_deleted : store :=
  run [DeleteDocument up "d1"] one_doc.

Definition three_docs : store :=
  run [AddDocument up "d2" "abba" None; AddDocument up "d3" "cab" None] one_doc.

Definition three_docs_d1_deleted : store :=
  run [DeleteDocument up "d1"] three_docs.


End Toy.

(** ** Characters of a text *)

(** a character that is not white space occurs in [s] *)
Fixpoint has_ink (s : string) : bool :=
  match s with
  | EmptyString => false
  | String c s' => negb (is_space c) || has_ink s'
  end.

(** every character of [s] satisfies [p] *)
Fixpoint all_chars (p : ascii -> bool) (s : string) : bool :=
  match s with
  | EmptyString => true
  | String c s' => p c && all_chars p s'
  end.

(** [s'] is what is left of [s] after some of its first characters *)
Definition suffix_of (s' s : string) : Prop := exists pre, s = pre +:+ s'.

(** no white space but the plain blank *)
Definition plain (c : ascii) : bool := negb (is_space c) || Ascii.eqb c " ".

(** the paragraphs [_split_text] keeps *)
Definition nonblank_paragraphs (text : string) : list string :=
  List.filter has_ink (split nl text).

(** What [_split_text] keeps true of a closed chunk, of its buffer, and
    the chunk the buffer still owes. *)
Definition chunk_ok (c : string) : Prop := has_ink c = true /\ strip c = c.

Definition buffer_ok (current_chunk : string) : Prop :=
  is_empty current_chunk = true \/ has_ink current_chunk = true.

Definition pending (current_chunk : string) : nat :=
  if is_empty current_chunk then 0%nat else 1%nat.

(** ** Python lists: slices and sorting *)

(** the position a slice bound [i] stands for in a list of length [n] *)
Definition clamp (n : nat) (i : Z) : nat :=
  Z.to_nat (if i <? 0 then Z.max (Z.of_nat n + i) 0 else Z.min i (Z.of_nat n)).

(** [l[i:j]] *)
Definition slice {A} (i j : Z) (l : list A) : list A :=
  take (clamp (length l) j - clamp (length l) i) (drop (clamp (length l) i) l).

(** [l[:j]] *)
Definition slice_to {A} (j : Z) (l : list A) : list A :=
  take (clamp (length l) j) l.

(** [a < b]: defined between two strings (by code points) and between two
    numbers; [TypeError] otherwise. *)
Definition py_lt (a b : value) : option bool :=
  match a, b with
  | VStr s, VStr t => Some (String.ltb s t)
  | (VInt _ | VBool _), (VInt _ | VBool _) =>
      match as_int a, as_int b with
      | Some x, Some y => Some (x <? y)
      | _, _ => None
      end
  | _, _ => None
  end.

Definition lt_key (a b : value) : bool := default false (py_lt a b).

(** Whether [list.sort] gets through a list with these keys: nothing is
    compared in a list of fewer than two entries; in a longer one every
    key is compared with some other, so that all of them must be strings
    or all of them numbers. *)
Definition comparable_keys (keys : list value) : bool :=
  match keys with
  | [] | [_] => true
  | k :: _ => forallb (fun x => bool_decide (is_Some (py_lt k x))) keys
  end.

(** [l.sort(key=..., reverse=True)] on keys that can be compared: the
    greater key first, entries with equal keys in their former order. *)
Fixpoint insert_sorted {A} (lt : A -> A -> bool) (x : A) (l : list A) : list A :=
  match l with
  | [] => [x]
  | y :: l' => if lt x y then y :: insert_sorted lt x l' else x :: l
  end.

Definition sort_desc {A} (lt : A -> A -> bool) (l : list A) : list A :=
  fold_right (insert_sorted lt) [] l.

(** ** The readers of [VectorService] and the [DocumentManager] *)

(** The dictionary [get_stats] returns *)
Record stats : Type := {
  total_documents : Z;
  active_documents : Z;
  total_chunks : Z;
  index_size : Z;
  vector_dimension : Z;
  stats_model_name : string
}.

Section Readers.
Context `{Backend}.

(** [not metadata.get("deleted", False)] *)
Definition not_deleted (m : attrs) : bool :=
  negb (truthy (default (VBool false) (m !! "deleted"))).

(** [x["metadata"].get("created_at", "")] *)
Definition created_key (m : attrs) : value :=
  default (VStr EmptyString) (m !! "created_at").

(** [list_documents]: no handler here, an exception of the sort reaches
    the caller. *)
Definition list_documents (limit offset : Z) : M (list (string * attrs)) :=
  s <- get_store ;;
  let active_docs := List.filter (fun p => not_deleted p.2) (metadata s) in
  if comparable_keys (map (fun p => created_key p.2) active_docs) then
    ret (slice offset (offset + limit)
           (sort_desc (fun x y => lt_key (created_key x.2) (created_key y.2))
              active_docs))
  else raise TypeError.

(** [get_stats]; [vector_dim] is [self.vector_dim]. *)
Definition get_stats (vector_dim : Z) : M stats :=
  s <- get_store ;;
  let active_docs :=
    Z.of_nat (length (List.filter (fun p => not_deleted p.2) (metadata s))) in
  let total_chunks :=
    fold_right Z.add 0 (map (fun p => chunk_count p.2) (documents s)) in
  ret {| total_documents := Z.of_nat (length (documents s));
         active_documents := active_docs;
         total_chunks := total_chunks;
         index_size := ntotal s;
         vector_dimension := vector_dim;
         stats_model_name := model_name |}.

End Readers.

Module DocumentManager.
Section Methods.
Context `{Backend}.

(** [result.get("metadata", {}).get("post_type") == post_type] for a
    string [post_type] *)
Definition has_post_type (post_type : string) (r : hit) : bool :=
  match r_metadata r !! "post_type" with
  | Some (VStr t) => String.eqb t post_type
  | _ => false
  end.

Definition search_related_posts (e : env) (query : string)
    (post_type : option string) (k : Z) : M (list hit) :=
  try_except
    (results <- search_similar e query (k * 2) (1 # 2) ;;
     let results :=
       match post_type with
       | Some t =>
           if negb (is_empty t) then List.filter (has_post_type t) results
           else results
       | None => results
       end in
     ret (slice_to k results))
    (fun _ => ret []).

Definition get_document_by_id (doc_id : string) : M (option doc_view) :=
  get_document doc_id.

Definition document_exists (doc_id : string) : M bool :=
  v <- get_document doc_id ;;
  ret (match v with Some _ => true | None => false end).

(** [DocumentManager.add_document]; the method called on the right is the
    one of [VectorService].  [save_immediately] changes nothing: the
    branch it guards is [pass]. *)
Definition add_document (e : env) (doc_id content : string)
    (metadata : option attrs) (save_immediately : bool) : M bool :=
  success <- add_document e doc_id content metadata ;;
  ret success.

Definition remove_document (e : env) (doc_id : string) : M bool :=
  delete_document e doc_id.

End Methods.
End DocumentManager.

(** ** Where a search result comes from *)

(** [h] was built by the loop of [search_similar] from some position of
    the index. *)
Definition hit_from `{Backend} (s : store) (h : hit) : Prop :=
  exists idx,
    _find_doc_by_index s idx = Ok (Some (r_doc_id h))
    /\ _get_chunk_content s (r_doc_id h) idx = Ok (r_chunk_hit h)
    /\ r_content h = match Dict.get (r_doc_id h) (documents s) with
                     | Some d => text d
                     | None => EmptyString
                     end.

(** ** More invariants of the reachable stores *)

(** [R] holds between every entry of [l] and the next one *)
Fixpoint adjacent {A} (R : A -> A -> Prop) (l : list A) : Prop :=
  match l with
  | x :: (y :: _) as l' => R x y /\ adjacent R l'
  | _ => True
  end.

(** the metadata carries a creation time, and it is a string *)
Definition stamped (m : attrs) : Prop :=
  exists t, m !! "created_at" = Some (VStr t).

(** the document records the number of its chunks *)
Definition counted (d : doc_data) : Prop :=
  chunk_count d = Z.of_nat (length (chunks d)).

(** the record [add_document] stores for a raw text *)
Definition new_document (raw : string) : doc_data :=
  {| text := raw; processed_text := _preprocess_text raw;
     chunks := rechunk raw;
     chunk_count := Z.of_nat (length (rechunk raw)) |}.

(** * Properties *)

(** ** Strings *)

Section StrFacts.
Import Str.

Lemma len_nonneg s : 0 <= len s.
Proof. unfold len. lia. Qed.

Lemma len_app s t : len (s +:+ t) = len s + len t.
Proof.
  unfold len. rewrite <- Nat2Z.inj_add. f_equal.
  induction s as [|c s IH]; simpl; [reflexivity | now rewrite IH].
Qed.

Lemma is_empty_true s : is_empty s = true -> s = EmptyString.
Proof. destruct s; simpl; congruence. Qed.

Lemma is_empty_false s : s <> EmptyString -> is_empty s = false.
Proof. destruct s; simpl; congruence. Qed.

Lemma is_empty_app_newline s t : is_empty (s +:+ newline +:+ t) = false.
Proof. destruct s; reflexivity. Qed.

Lemma split_nonempty sep s : split sep s <> [].
Proof.
  destruct s as [|c s]; simpl; [discriminate|].
  destruct (Ascii.eqb c sep); [discriminate|].
  destruct (split sep s); discriminate.
Qed.

(** A paragraph that holds no separator before a separator is the first
    piece of the split. *)
Lemma split_app_sep s t :
  no_newline s -> split nl (s +:+ newline +:+ t) = s :: split nl t.
Proof.
  unfold no_newline. revert t. induction s as [|c s IH]; intros t Hs.
  - reflexivity.
  - simpl in *. destruct (Ascii.eqb c nl) eqn:Hc; [discriminate|].
    destruct (split nl s) as [|p ps] eqn:Hsp.
    + exfalso. eapply split_nonempty, Hsp.
    + assert (p = s /\ ps = []) as [-> ->] by (split; congruence).
      rewrite (IH t eq_refl). reflexivity.
Qed.

Lemma lstrip_head c s : is_space c = false -> lstrip (String c s) = String c s.
Proof. intros Hc. simpl. now rewrite Hc. Qed.

Lemma rstrip_idem s : rstrip (rstrip s) = rstrip s.
Proof.
  induction s as [|c s IH]; [reflexivity|].
  simpl. destruct (is_space c && is_empty (rstrip s)) eqn:E; [reflexivity|].
  simpl. rewrite IH, E. reflexivity.
Qed.

Lemma lstrip_no_space_head s :
  match lstrip s with
  | String c _ => is_space c = false
  | EmptyString => True
  end.
Proof.
  induction s as [|c s IH]; simpl; [exact I|].
  destruct (is_space c) eqn:E; [exact IH | exact E].
Qed.

Lemma rstrip_keeps_head c s :
  is_space c = false -> exists r, rstrip (String c s) = String c r.
Proof. intros Hc. simpl. rewrite Hc. simpl. eauto. Qed.

(** [strip] is idempotent. *)
Lemma strip_idem s : strip (strip s) = strip s.
Proof.
  unfold strip. pose proof (lstrip_no_space_head s) as Hh.
  destruct (lstrip s) as [|c t] eqn:E; [reflexivity|].
  destruct (rstrip_keeps_head c t Hh) as [r Hr].
  rewrite Hr, (lstrip_head c r Hh), <- Hr. apply rstrip_idem.
Qed.

Lemma strip_head_no_space s :
  match strip s with
  | String c _ => is_space c = false
  | EmptyString => True
  end.
Proof.
  unfold strip. pose proof (lstrip_no_space_head s) as Hh.
  destruct (lstrip s) as [|c t]; [exact I|].
  destruct (rstrip_keeps_head c t Hh) as [r ->]. exact Hh.
Qed.

(** Nothing is stripped on the right of a text that does not end in
    white space, whatever stands before it. *)
Lemma rstrip_app s t :
  t <> EmptyString -> rstrip t = t -> rstrip (s +:+ t) = s +:+ t.
Proof.
  intros Hne Ht. induction s as [|c s IH]; [exact Ht|].
  assert (is_empty (s +:+ t) = false) as Hst.
  { destruct s; [exact (is_empty_false t Hne) | reflexivity]. }
  change (rstrip (String c s +:+ t))
    with (if is_space c && is_empty (rstrip (s +:+ t)) then EmptyString
          else String c (rstrip (s +:+ t))).
  rewrite IH, Hst, andb_false_r. reflexivity.
Qed.

Lemma rstrip_strip s : rstrip (strip s) = strip s.
Proof. unfold strip. apply rstrip_idem. Qed.

End StrFacts.

(** ** The text helpers *)

Lemma Qltb_quarter (m n : Z) : Qltb (inject_Z m) (n # 4) = (4 * m <? n).
Proof.
  unfold Qltb, Qle_bool, inject_Z. simpl.
  destruct (Z.leb_spec (n * 1) (m * 4)), (Z.ltb_spec (4 * m) n);
    simpl; try reflexivity; lia.
Qed.

Lemma strip_joined (o q : string) :
  match o with String c _ => is_space c = false | EmptyString => False end ->
  strip q <> EmptyString ->
  strip (o +:+ newline +:+ strip q) = o +:+ newline +:+ strip q.
Proof.
  intros Ho Hq. destruct o as [|c o']; [contradiction|].
  unfold strip at 1.
  change (String c o' +:+ newline +:+ strip q)
    with (String c (o' +:+ newline +:+ strip q)).
  rewrite (lstrip_head _ _ Ho).
  change (String c (o' +:+ newline +:+ strip q))
    with (String c o' +:+ newline +:+ strip q).
  apply rstrip_app.
  - destruct (strip q); discriminate.
  - apply rstrip_app; [exact Hq | apply rstrip_strip].
Qed.

(** The first paragraph only fills the buffer; no chunk is closed before
    there is a buffer to close. *)
Lemma split_step_first (max_tokens overlap : Z) (p : string) :
  strip p <> EmptyString ->
  split_step max_tokens overlap ([], EmptyString) p = ([], strip p).
Proof.
  intros Hp. unfold split_step. rewrite (is_empty_false _ Hp).
  destruct (Qltb _ _); reflexivity.
Qed.

(** A paragraph that overflows a non-empty buffer closes it and starts
    the next one with the overlap. *)
Lemma split_step_overflow (max_tokens overlap : Z) (chunks : list string) (cur p : string) :
  cur <> EmptyString -> strip p <> EmptyString ->
  4 * max_tokens < len cur + len (strip p) ->
  split_step max_tokens overlap (chunks, cur) p =
    (chunks ++ [strip cur], overlap_text overlap cur +:+ newline +:+ strip p).
Proof.
  intros Hc Hp Hlen. unfold split_step.
  rewrite (is_empty_false _ Hp), Qltb_quarter, len_app.
  destruct (Z.ltb_spec (4 * max_tokens) (len cur + len (strip p))); [|lia].
  rewrite (is_empty_false _ Hc). reflexivity.
Qed.

(** C9 (as amended).  Two non-blank paragraphs whose stripped lengths add
    up to more than 4 * 512 characters give exactly two chunks, since the
    text is cut between paragraphs only: the stripped first paragraph, and
    the stripped concatenation of the last 200 characters of the first
    chunk (all of it when it is shorter), a line break and the stripped
    second paragraph.  When that overlap does not begin with white space,
    the second chunk begins with it unchanged. *)
Theorem split_text_two_paragraphs (p1 p2 : string) :
  no_newline p1 -> no_newline p2 ->
  strip p1 <> EmptyString -> strip p2 <> EmptyString ->
  2048 < len (strip p1) + len (strip p2) ->
  let o := overlap_text 50 (strip p1) in
  _split_text (p1 +:+ newline +:+ p2) 512 50
    = [strip p1; strip (o +:+ newline +:+ strip p2)]
  /\ (match o with String c _ => is_space c = false | EmptyString => False end ->
      strip (o +:+ newline +:+ strip p2) = o +:+ newline +:+ strip p2).
Proof.
  intros H1 H2 Hq1 Hq2 Hlen o. split; [|intros Ho; now apply strip_joined].
  unfold _split_text. rewrite (split_app_sep _ _ H1), H2.
  cbn [fold_left]. rewrite (split_step_first _ _ _ Hq1).
  rewrite (split_step_overflow _ _ _ _ _ Hq1 Hq2) by lia.
  rewrite is_empty_app_newline, strip_idem. reflexivity.
Qed.

Lemma no_newline_repeat (c : ascii) (n : nat) :
  Ascii.eqb c nl = false -> no_newline (repeat_char c n).
Proof.
  intros Hc. unfold no_newline. induction n as [|n IH]; [reflexivity|].
  simpl. rewrite Hc, IH. reflexivity.
Qed.

Lemma rstrip_repeat (c : ascii) (n : nat) :
  is_space c = false -> rstrip (repeat_char c n) = repeat_char c n.
Proof.
  intros Hc. induction n as [|n IH]; [reflexivity|].
  simpl. rewrite IH, Hc. reflexivity.
Qed.

Lemma strip_repeat (c : ascii) (n : nat) :
  is_space c = false -> strip (repeat_char c n) = repeat_char c n.
Proof.
  intros Hc. unfold strip. destruct n as [|n]; [reflexivity|].
  change (lstrip (repeat_char c (S n)))
    with (if is_space c then lstrip (repeat_char c n) else repeat_char c (S n)).
  rewrite Hc. now apply rstrip_repeat.
Qed.

Lemma len_repeat (c : ascii) (n : nat) : len (repeat_char c n) = Z.of_nat n.
Proof. unfold len. f_equal. induction n; simpl; congruence. Qed.

Lemma split_text_two_paragraphs_witness :
  _split_text (repeat_char "a" 4100 +:+ newline +:+ repeat_char "b" 4100) 512 50
  = [repeat_char "a" 4100;
     repeat_char "a" 200 +:+ newline +:+ repeat_char "b" 4100].
Proof.
  assert (Ha : is_space "a" = false) by reflexivity.
  assert (Hb : is_space "b" = false) by reflexivity.
  destruct (split_text_two_paragraphs (repeat_char "a" 4100) (repeat_char "b" 4100))
    as [Heq Hpre].
  - now apply no_newline_repeat.
  - now apply no_newline_repeat.
  - rewrite strip_repeat by exact Ha. discriminate.
  - rewrite strip_repeat by exact Hb. discriminate.
  - rewrite !strip_repeat, !len_repeat by assumption. lia.
  - rewrite Heq, Hpre.
    + rewrite !strip_repeat by assumption.
      replace (overlap_text 50 (repeat_char "a" 4100)) with (repeat_char "a" 200)
        by (vm_compute; reflexivity).
      reflexivity.
    + rewrite strip_repeat by exact Ha. vm_compute. reflexivity.
Defined.

(** C9 (as stated, refuted).  A text of two paragraphs of 4100 characters
    each, 2050 estimated tokens in all, gives two chunks and not four. *)
Lemma two_paragraphs_give_two_chunks :
  ~ (4 <= length (_split_text
        (repeat_char "a" 4100 +:+ newline +:+ repeat_char "b" 4100) 512 50))%nat.
Proof. vm_compute. lia. Qed.

(** The overlap loses the white space it begins with: when the last 200
    characters of the first chunk start with a blank, the second chunk
    starts one character later. *)
Example overlap_loses_leading_blank :
  _split_text
    ((repeat_char "a" 3900 +:+ " " +:+ repeat_char "a" 199)
       +:+ newline +:+ repeat_char "b" 4100) 512 50
  = [repeat_char "a" 3900 +:+ " " +:+ repeat_char "a" 199;
     repeat_char "a" 199 +:+ newline +:+ repeat_char "b" 4100].
Proof. vm_compute. reflexivity. Qed.

(** C7.  On ["a http://x.com b"] the normalizer leaves two adjacent
    blanks, which a second pass collapses: the white space is collapsed
    before the address is taken out, and the result of one pass is not a
    fixed point. *)
Theorem preprocess_text_not_idempotent :
  _preprocess_text "a http://x.com b" = "a  b"
  /\ _preprocess_text (_preprocess_text "a http://x.com b") = "a b".
Proof. split; vm_compute; reflexivity. Qed.

(** ** Dictionaries *)

Section DictFacts.
Context {V : Type}.
Implicit Types (d : dict V) (k : string) (v : V).

Lemma dict_get_set_eq k v d : Dict.get k (Dict.set k v d) = Some v.
Proof.
  induction d as [|[k' v'] d IH]; simpl.
  - now rewrite String.eqb_refl.
  - destruct (String.eqb k k') eqn:E; simpl; rewrite ?String.eqb_refl, ?E; auto.
Qed.

Lemma dict_get_set_ne k k' v d :
  k <> k' -> Dict.get k' (Dict.set k v d) = Dict.get k' d.
Proof.
  intros Hne. induction d as [|[k0 v0] d IH]; simpl.
  - destruct (String.eqb_spec k' k); congruence.
  - destruct (String.eqb_spec k k0) as [->|]; simpl.
    + destruct (String.eqb_spec k' k0); congruence.
    + now rewrite IH.
Qed.

Lemma dict_mem_get k d : Dict.mem k d = true <-> is_Some (Dict.get k d).
Proof.
  unfold Dict.mem. destruct (Dict.get k d); split; intros Hm; eauto;
    try discriminate. now destruct Hm.
Qed.

Lemma dict_mem_false k d : Dict.mem k d = false <-> Dict.get k d = None.
Proof. unfold Dict.mem. destruct (Dict.get k d); split; congruence. Qed.

Lemma dict_get_None k d : Dict.get k d = None <-> k ∉ Dict.keys d.
Proof.
  unfold Dict.keys. induction d as [|[k' v'] d IH]; simpl.
  - split; [intros _ Hin; inversion Hin | reflexivity].
  - rewrite not_elem_of_cons. destruct (String.eqb_spec k k') as [->|Hne].
    + split; [discriminate | intros [Hk _]; congruence].
    + rewrite IH. tauto.
Qed.

Lemma dict_get_Some_keys k d : is_Some (Dict.get k d) <-> k ∈ Dict.keys d.
Proof.
  destruct (Dict.get k d) eqn:E.
  - split; [intros _|eauto]. destruct (decide (k ∈ Dict.keys d)) as [|Hn]; [assumption|].
    apply dict_get_None in Hn. congruence.
  - split; [intros [? ?]; discriminate|]. intros Hin.
    apply dict_get_None in E. contradiction.
Qed.

(** a new key goes last *)
Lemma dict_set_fresh k v d : Dict.get k d = None -> Dict.set k v d = d ++ [(k, v)].
Proof.
  induction d as [|[k' v'] d IH]; simpl; [reflexivity|].
  destruct (String.eqb k k'); [discriminate|]. intros Hg. now rewrite IH.
Qed.

Lemma dict_get_app k d1 d2 :
  Dict.get k (d1 ++ d2) =
    match Dict.get k d1 with Some v => Some v | None => Dict.get k d2 end.
Proof.
  induction d1 as [|[k' v'] d1 IH]; simpl; [reflexivity|].
  now destruct (String.eqb k k').
Qed.

Lemma dict_keys_set_fresh k v d :
  Dict.get k d = None -> Dict.keys (Dict.set k v d) = Dict.keys d ++ [k].
Proof. intros Hg. rewrite dict_set_fresh by exact Hg. unfold Dict.keys. now rewrite map_app. Qed.

Lemma dict_keys_mutate k (f : V -> V) d :
  Dict.keys (Dict.mutate k f d) = Dict.keys d.
Proof.
  unfold Dict.keys. induction d as [|[k' v'] d IH]; simpl; [reflexivity|].
  destruct (String.eqb k k'); simpl; [reflexivity | now rewrite IH].
Qed.

Lemma dict_get_mutate k k' (f : V -> V) d :
  Dict.get k' (Dict.mutate k f d) =
    if String.eqb k k' then f <$> Dict.get k' d else Dict.get k' d.
Proof.
  induction d as [|[k0 v0] d IH]; simpl.
  - now destruct (String.eqb k k').
  - destruct (String.eqb_spec k k0) as [->|Hne]; simpl.
    + destruct (String.eqb_spec k0 k') as [->|Hne'].
      * now rewrite String.eqb_refl.
      * destruct (String.eqb_spec k' k0); congruence.
    + rewrite IH. destruct (String.eqb_spec k' k0) as [->|]; [|reflexivity].
      destruct (String.eqb_spec k k0); congruence.
Qed.

Lemma dict_get_is_Some_mutate k k' (f : V -> V) d :
  is_Some (Dict.get k' (Dict.mutate k f d)) <-> is_Some (Dict.get k' d).
Proof. rewrite !dict_get_Some_keys, dict_keys_mutate. reflexivity. Qed.

Lemma dict_get_is_Some_set k k' v d :
  is_Some (Dict.get k' (Dict.set k v d)) <-> k' = k \/ is_Some (Dict.get k' d).
Proof.
  destruct (decide (k = k')) as [->|Hne].
  - rewrite dict_get_set_eq. split; eauto.
  - rewrite dict_get_set_ne by exact Hne. split; [eauto|]. intros [->|]; congruence.
Qed.

(** looking up in a dictionary filtered on its keys *)
Lemma dict_get_filter (f : string -> bool) k d :
  Dict.get k (List.filter (fun p => f p.1) d) = if f k then Dict.get k d else None.
Proof.
  induction d as [|[k' v'] d IH]; simpl; [now destruct (f k)|].
  destruct (f k') eqn:Hf; simpl.
  - destruct (String.eqb_spec k k') as [->|]; [now rewrite Hf | exact IH].
  - rewrite IH. destruct (String.eqb_spec k k') as [->|]; [now rewrite Hf | reflexivity].
Qed.

Lemma dict_keys_filter_sublist (f : string * V -> bool) d :
  sublist (Dict.keys (List.filter f d)) (Dict.keys d).
Proof.
  unfold Dict.keys. induction d as [|p d IH]; simpl; [constructor|].
  destruct (f p); simpl; now constructor.
Qed.

End DictFacts.

(** ** The methods *)

Section ServiceFacts.
Context `{Backend}.
Implicit Types (s : store) (e : env).

(** C5.  Adding under an identifier that [self.documents] already holds
    (tombstoned or not) returns [True] and changes nothing in the
    store. *)
Theorem add_document_existing e doc_id text md s :
  Dict.mem doc_id (documents s) = true ->
  add_document e doc_id text md s = (Ok true, s).
Proof.
  intros Hm. unfold add_document, try_except, bind, get_store.
  now rewrite Hm.
Qed.

Lemma Qltb_false (x y : Q) : Qltb x y = false -> (y <= x)%Q.
Proof.
  unfold Qltb. intros Hb. apply Qle_bool_iff.
  now destruct (Qle_bool y x).
Qed.

Lemma search_loop_invariant s k thr hits :
  forall results seen res,
    search_loop s k thr hits results seen = Ok res ->
    NoDup (map r_doc_id results) ->
    (forall h, h ∈ results -> r_doc_id h ∈ seen) ->
    Forall (hit_ok s thr) results ->
    NoDup (map r_doc_id res) /\ Forall (hit_ok s thr) res.
Proof.
  induction hits as [|[score idx] hits IH]; intros results seen res Hrun Hnd Hseen Hok.
  - simpl in Hrun. injection Hrun as <-. auto.
  - simpl in Hrun.
    destruct (Qltb score thr) eqn:Hthr; [eauto|].
    destruct (_find_doc_by_index s idx) as [[doc_id|]|]; [|eauto|discriminate].
    destruct (negb (is_empty doc_id) && negb (bool_decide (doc_id ∈ seen))) eqn:Hnew;
      [|eauto].
    destruct (_get_chunk_content s doc_id idx) as [chunk|]; [|discriminate].
    apply andb_prop in Hnew as [_ Hfresh].
    apply negb_true_iff, bool_decide_eq_false in Hfresh.
    set (h := {| r_doc_id := doc_id; r_score := score; r_content := _;
                 r_metadata := _; r_chunk_hit := chunk |}) in Hrun.
    assert (Hnd' : NoDup (map r_doc_id (results ++ [h]))).
    { rewrite map_app. apply NoDup_app. split; [exact Hnd|]. split.
      - intros x Hx Hx'. simpl in Hx'. apply list_elem_of_singleton in Hx'. subst x.
        apply list_elem_of_fmap in Hx as [h' [Hid Hh']].
        apply Hfresh. rewrite Hid. now apply Hseen.
      - simpl. apply NoDup_singleton. }
    assert (Hok' : Forall (hit_ok s thr) (results ++ [h])).
    { apply Forall_app. split; [exact Hok|]. constructor; [|constructor].
      split; [now apply Qltb_false | reflexivity]. }
    destruct (Z.of_nat (length (results ++ [h])) >=? k).
    + injection Hrun as <-. auto.
    + eapply IH; [exact Hrun | exact Hnd' | | exact Hok'].
      intros h' Hh'. apply elem_of_app in Hh' as [Hh'|Hh'].
      * apply elem_of_union_l. now apply Hseen.
      * apply list_elem_of_singleton in Hh'. subst h'. apply elem_of_union_r.
        now apply elem_of_singleton.
Qed.


(** The two ways [search_similar] ends: with the empty list (empty
    index, or an exception caught by the handler), or with what the loop
    built from the first row of the index's answer. *)
Lemma search_similar_run e query k thr s :
  search_similar e query k thr s = (Ok [], s)
  \/ exists row rows res,
       index_search (index s) (map embed [query]) (Z.min (k * 2) (ntotal s))
         = Some (row :: rows)
       /\ search_loop s k thr row [] ∅ = Ok res
       /\ search_similar e query k thr s = (Ok res, s).
Proof.
  unfold search_similar, try_except, bind, get_store, encode, lift, ret, raise.
  destruct (ntotal s =? 0); [now left|].
  destruct (encode_ok e [query]); [|now left].
  destruct (index_search _ _ _) as [[|row rows]|] eqn:Hs; [now left| |now left].
  destruct (search_loop s k thr row [] ∅) as [res|] eqn:Hl; [|now left].
  right. exists row, rows, res. auto.
Qed.


(** C6 (as amended).  A failure of the embedding model on the query is
    caught: [search_similar] returns the empty list, as it does on an
    empty index, and the store is untouched. *)
Theorem search_similar_embed_failure e query k thr s :
  encode_ok e [query] = false \/ index s = [] ->
  search_similar e query k thr s = (Ok [], s).
Proof.
  unfold search_similar, try_except, bind, get_store, encode, ret, raise, ntotal.
  intros [He|Hix].
  - destruct (_ =? 0); [reflexivity|]. now rewrite He.
  - now rewrite Hix.
Qed.

Lemma update_store_keys (m : attrs) (v1 v2 v3 v4 v5 v6 : value) :
  let m' := update [("doc_id", v1); ("chunk_count", v2); ("start_index", v3);
                    ("end_index", v4); ("created_at", v5); ("vector_model", v6)] m in
  m' !! "doc_id" = Some v1 /\ m' !! "chunk_count" = Some v2
  /\ m' !! "start_index" = Some v3 /\ m' !! "end_index" = Some v4
  /\ m' !! "created_at" = Some v5 /\ m' !! "vector_model" = Some v6
  /\ forall key, key ∉ store_keys -> m' !! key = m !! key.
Proof.
  unfold update, store_keys. simpl.
  repeat split; try (by simplify_map_eq).
  intros key Hkey. repeat (apply not_elem_of_cons in Hkey as [? Hkey]).
  by simplify_map_eq.
Qed.

Lemma search_similar_metadata e query k thr s res h :
  (search_similar e query k thr s).1 = Ok res -> h ∈ res ->
  r_metadata h = default ∅ (Dict.get (r_doc_id h) (metadata s)).
Proof.
  intros Hs Hh.
  destruct (search_similar_run e query k thr s) as [Hr|(row & rows & res' & _ & Hl & Hr)];
    rewrite Hr in Hs; simpl in Hs; injection Hs as <-.
  - inversion Hh.
  - destruct (search_loop_invariant _ _ _ _ _ _ _ Hl) as [_ Hok];
      [apply NoDup_nil_2 | intros h' Hh'; inversion Hh' | constructor |].
    rewrite Forall_forall in Hok. now destruct (Hok h Hh).
Qed.

(** C10.  A successful [add_document] under a fresh identifier stores
    the caller's attributes with the six keys of the store assigned by
    the store, whatever the caller gave under them, and every other key
    as the caller gave it; [get_document] and [search_similar] hand out
    that very dictionary. *)
Theorem add_document_metadata e doc_id text md s :
  Dict.mem doc_id (documents s) = false ->
  encode_ok e (_split_text (_preprocess_text text) 512 50) = true ->
  let n := Z.of_nat (length (_split_text (_preprocess_text text) 512 50)) in
  exists s' m,
    add_document e doc_id text md s = (Ok true, s')
    /\ Dict.get doc_id (metadata s') = Some m
    /\ m !! "doc_id" = Some (VStr doc_id)
    /\ m !! "chunk_count" = Some (VInt n)
    /\ m !! "start_index" = Some (VInt (ntotal s))
    /\ m !! "end_index" = Some (VInt (ntotal s + n - 1))
    /\ m !! "created_at" = Some (VStr (now e))
    /\ m !! "vector_model" = Some (VStr model_name)
    /\ (forall key, key ∉ store_keys -> m !! key = default ∅ md !! key)
    /\ (exists v, get_document doc_id s' = (Ok (Some v), s') /\ g_metadata v = m)
    /\ (forall e' query k thr res h,
           (search_similar e' query k thr s').1 = Ok res ->
           h ∈ res -> r_doc_id h = doc_id -> r_metadata h = m).
Proof.
  intros Hfresh Henc n.
  unfold add_document, try_except, bind, get_store, encode, index_add,
    store_document, store_metadata, map_chunks, _save_index, modify, ret.
  rewrite Hfresh, Henc. cbn [fst snd].
  match goal with
  | |- context [update ?kvs ?m0] =>
      pose proof (update_store_keys m0 (VStr doc_id) (VInt n) (VInt (ntotal s))
                    (VInt (ntotal s + n - 1)) (VStr (now e)) (VStr model_name))
        as (K1 & K2 & K3 & K4 & K5 & K6 & Kother);
      set (m := update kvs m0) in *
  end.
  eexists. exists m. split; [reflexivity|].
  split_and!; try assumption.
  - cbn. apply dict_get_set_eq.
  - unfold get_document, bind, get_store, ret. cbn.
    rewrite !dict_get_set_eq. eexists. split; [reflexivity|]. reflexivity.
  - intros e' query k thr res h Hs Hh Hid.
    rewrite (search_similar_metadata _ _ _ _ _ _ _ Hs Hh), Hid. cbn.
    now rewrite dict_get_set_eq.
Qed.

End ServiceFacts.

(** ** What each method does to the store *)

Section Effects.
Context `{Backend}.
Implicit Types (s : store) (e : env).

Lemma range_of_update (m : attrs) (v1 v2 v5 v6 : value) (a b : Z) :
  range_of (update [("doc_id", v1); ("chunk_count", v2); ("start_index", VInt a);
                    ("end_index", VInt b); ("created_at", v5); ("vector_model", v6)] m)
  = Some (a, b).
Proof. unfold range_of, update. simpl. by simplify_map_eq. Qed.

Lemma range_of_rebuilt (start : Z) (n : nat) (m : attrs) :
  range_of (rebuilt_metadata start n m) = Some (start, start + Z.of_nat n - 1).
Proof. unfold range_of, rebuilt_metadata. by simplify_map_eq. Qed.

Lemma range_of_deleted (m : attrs) (v1 v2 : value) :
  range_of (<["deleted_at" := v1]> (<["deleted" := v2]> m)) = range_of m.
Proof. unfold range_of. by simplify_map_eq. Qed.

Lemma add_document_known e doc_id text md s :
  Dict.mem doc_id (documents s) = true ->
  add_document e doc_id text md s = (Ok true, s).
Proof.
  intros Hm. unfold add_document, try_except, bind, get_store.
  rewrite Hm. reflexivity.
Qed.

(** [add_document] changes nothing, or appends one document, its
    vectors and its metadata. *)
Lemma add_document_effect e doc_id raw md s :
  (add_document e doc_id raw md s).2 = s
  \/ Dict.get doc_id (documents s) = None
     /\ exists d m,
          text d = raw /\ chunks d = rechunk raw
          /\ range_of m = Some (ntotal s, ntotal s + Z.of_nat (length (chunks d)) - 1)
          /\ index (add_document e doc_id raw md s).2 = index s ++ map embed (chunks d)
          /\ documents (add_document e doc_id raw md s).2
             = Dict.set doc_id d (documents s)
          /\ metadata (add_document e doc_id raw md s).2
             = Dict.set doc_id m (metadata s).
Proof.
  unfold add_document, try_except, bind, get_store, encode, index_add,
    store_document, store_metadata, map_chunks, _save_index, modify, ret, raise.
  destruct (Dict.mem doc_id (documents s)) eqn:Hm; [now left|].
  fold (rechunk raw).
  destruct (encode_ok e (rechunk raw)); [|now left].
  right. split; [now apply dict_mem_false|].
  eexists {| text := raw; chunks := rechunk raw |}, _.
  split_and!; try reflexivity. cbn [chunks]. apply range_of_update.
Qed.

Lemma search_similar_effect e query k thr s : (search_similar e query k thr s).2 = s.
Proof.
  destruct (search_similar_run e query k thr s) as [->|(? & ? & ? & _ & _ & ->)];
    reflexivity.
Qed.

Lemma get_document_effect doc_id s : (get_document doc_id s).2 = s.
Proof.
  unfold get_document, bind, get_store, ret.
  now destruct (Dict.get doc_id (documents s)).
Qed.

(** [delete_document] changes nothing but two keys of one metadata
    dictionary. *)
Lemma delete_document_effect e doc_id s :
  (delete_document e doc_id s).2 = s
  \/ index (delete_document e doc_id s).2 = index s
     /\ documents (delete_document e doc_id s).2 = documents s
     /\ metadata (delete_document e doc_id s).2
        = Dict.mutate doc_id
            (fun m => <["deleted_at" := VStr (now e)]> (<["deleted" := VBool true]> m))
            (metadata s).
Proof.
  unfold delete_document, try_except, bind, get_store, mutate_metadata,
    _save_index, modify, ret.
  destruct (Dict.mem doc_id (documents s)); [|now left].
  destruct (Dict.mem doc_id (metadata s)); [right|left]; auto.
Qed.

(** The comprehension of [rebuild_index] keeps the live documents, in
    order, each with the metadata recorded for it. *)
Lemma active_docs_result s docs todo :
  active_docs s docs = Ok todo ->
  map (fun x => x.1) todo = List.filter (fun p => is_active s p.1) docs
  /\ Forall (fun x => Dict.get x.1.1 (metadata s) = Some x.2) todo.
Proof.
  revert todo. induction docs as [|[doc_id d] docs IH]; intros todo Hrun; simpl in *.
  - injection Hrun as <-. split; [reflexivity | constructor].
  - destruct (is_active s doc_id); [|now apply IH].
    destruct (Dict.get doc_id (metadata s)) as [m|] eqn:Hm; [|discriminate].
    destruct (active_docs s docs) as [l|]; [|discriminate].
    injection Hrun as <-. destruct (IH l eq_refl) as [IH1 IH2].
    split; [simpl; now rewrite IH1 | now constructor].
Qed.

Lemma active_docs_total s docs :
  (forall doc_id, is_Some (Dict.get doc_id docs) -> is_Some (Dict.get doc_id (metadata s))) ->
  NoDup (Dict.keys docs) ->
  exists todo, active_docs s docs = Ok todo.
Proof.
  induction docs as [|[doc_id d] docs IH]; intros Hmeta Hnd; simpl.
  - eauto.
  - apply NoDup_cons in Hnd as [Hnotin Hnd].
    destruct IH as [todo Htodo]; [|exact Hnd|].
    { intros k Hk. apply Hmeta. simpl.
      destruct (String.eqb_spec k doc_id) as [->|]; [|exact Hk].
      apply dict_get_Some_keys in Hk. contradiction. }
    rewrite Htodo. destruct (is_active s doc_id); [|eauto].
    destruct (Hmeta doc_id) as [m Hm]; [simpl; rewrite String.eqb_refl; eauto|].
    rewrite Hm. eauto.
Qed.

Lemma ntotal_app s (vs : list vec) :
  ntotal (set_index (index s ++ vs) s) = ntotal s + Z.of_nat (length vs).
Proof. unfold ntotal. simpl. rewrite length_app. lia. Qed.

Lemma rebuild_loop_cons e doc_id d m todo nm nd s :
  rebuild_loop e ((doc_id, d, m) :: todo) nm nd s
  = if encode_ok e (chunks d)
    then rebuild_loop e todo
           (Dict.set doc_id (rebuilt_metadata (ntotal s) (length (chunks d)) m) nm)
           (Dict.set doc_id d nd) (turn doc_id d m s)
    else (Raise EmbedFailure, s).
Proof.
  simpl. unfold bind at 1, encode.
  destruct (encode_ok e (chunks d)); reflexivity.
Qed.

Lemma ntotal_turn doc_id d m s :
  ntotal (turn doc_id d m s) = ntotal s + Z.of_nat (length (chunks d)).
Proof. unfold turn, ntotal. simpl. rewrite length_app, length_map. lia. Qed.

(** The loop of [rebuild_index]: it never touches [self.documents] nor
    the keys of [self.metadata], and when it comes to its end the locals
    and the index are as computed by [fold_metadata], [fold_documents]
    and [vectors_of]. *)
Lemma rebuild_loop_result e todo :
  forall nm nd s,
    let out := rebuild_loop e todo nm nd s in
    documents out.2 = documents s
    /\ Dict.keys (metadata out.2) = Dict.keys (metadata s)
    /\ forall new, out.1 = Ok new ->
         new = (fold_metadata (ntotal s) todo nm, fold_documents todo nd)
         /\ index out.2 = index s ++ vectors_of (map (fun x => x.1) todo).
Proof.
  induction todo as [|[[doc_id d] m] todo IH]; intros nm nd s out.
  - subst out. simpl. split_and!; try reflexivity. intros new Hnew.
    injection Hnew as <-. unfold vectors_of. simpl. now rewrite app_nil_r.
  - subst out. rewrite rebuild_loop_cons.
    destruct (encode_ok e (chunks d)).
    + destruct (IH (Dict.set doc_id (rebuilt_metadata (ntotal s) (length (chunks d)) m) nm)
                  (Dict.set doc_id d nd) (turn doc_id d m s)) as (IHd & IHk & IHr).
      split_and!.
      * rewrite IHd. reflexivity.
      * rewrite IHk. unfold turn. simpl. apply dict_keys_mutate.
      * intros new Hnew. destruct (IHr new Hnew) as [-> Hix]. split.
        -- simpl. now rewrite ntotal_turn.
        -- rewrite Hix. unfold turn, vectors_of. simpl. now rewrite <- app_assoc.
    + simpl. split_and!; try reflexivity. discriminate.
Qed.


(** How [rebuild_index] ends: on the exception of the comprehension,
    with the store untouched; on an exception in the loop, with what the
    loop did so far; or with the two new dictionaries installed. *)
Lemma rebuild_index_unfold e s :
  rebuild_index e s
  = match active_docs s (documents s) with
    | Raise _ => (Ok false, s)
    | Ok todo =>
        let out := rebuild_loop e todo [] [] (set_id_to_index [] (set_index [] s)) in
        match out.1 with
        | Ok new => (Ok true, set_documents new.2 (set_metadata new.1 out.2))
        | Raise _ => (Ok false, out.2)
        end
    end.
Proof.
  unfold rebuild_index, try_except, bind, lift, modify, _save_index, ret.
  destruct (active_docs s (documents s)) as [todo|]; [|reflexivity].
  cbn zeta.
  destruct (rebuild_loop e todo [] [] (set_id_to_index [] (set_index [] s)))
    as [[new|ex] s1]; reflexivity.
Qed.

End Effects.

(** ** Rebuilding *)

Section Rebuild.
Context `{Backend}.
Implicit Types (s : store) (e : env) (todo : list (string * doc_data * attrs)).

Lemma fold_documents_fresh todo :
  forall nd,
    NoDup (map (fun x => x.1.1) todo) ->
    (forall x, x ∈ todo -> Dict.get x.1.1 nd = None) ->
    fold_documents todo nd = nd ++ map (fun x => x.1) todo.
Proof.
  unfold fold_documents.
  induction todo as [|[[doc_id d] m] todo IH]; intros nd Hnd Hfresh; simpl.
  - now rewrite app_nil_r.
  - simpl in Hnd. apply NoDup_cons in Hnd as [Hnotin Hnd].
    rewrite (dict_set_fresh doc_id d nd) by (apply (Hfresh (doc_id, d, m)); left).
    rewrite IH; [now rewrite <- app_assoc | exact Hnd |].
    intros x Hx. rewrite dict_get_app, (Hfresh x) by now right.
    simpl. destruct (String.eqb_spec x.1.1 doc_id) as [Heq|]; [|reflexivity].
    exfalso. apply Hnotin. apply list_elem_of_fmap. exists x. auto.
Qed.

Lemma fold_metadata_fresh todo :
  forall start nm,
    NoDup (map (fun x => x.1.1) todo) ->
    (forall x, x ∈ todo -> Dict.get x.1.1 nm = None) ->
    fold_metadata start todo nm = nm ++ layout start todo.
Proof.
  induction todo as [|[[doc_id d] m] todo IH]; intros start nm Hnd Hfresh; simpl.
  - now rewrite app_nil_r.
  - simpl in Hnd. apply NoDup_cons in Hnd as [Hnotin Hnd].
    rewrite (dict_set_fresh doc_id _ nm) by (apply (Hfresh (doc_id, d, m)); left).
    rewrite IH; [now rewrite <- app_assoc | exact Hnd |].
    intros x Hx. rewrite dict_get_app, (Hfresh x) by now right.
    simpl. destruct (String.eqb_spec x.1.1 doc_id) as [Heq|]; [|reflexivity].
    exfalso. apply Hnotin. apply list_elem_of_fmap. exists x. auto.
Qed.

Lemma layout_keys start todo :
  Dict.keys (layout start todo) = map (fun x => x.1.1) todo.
Proof.
  unfold Dict.keys. revert start.
  induction todo as [|[[doc_id d] m] todo IH]; intros start; simpl;
    [reflexivity | now rewrite IH].
Qed.


Lemma live_documents_NoDup s :
  NoDup (Dict.keys (documents s)) -> NoDup (Dict.keys (live_documents s)).
Proof. intros Hnd. eapply sublist_NoDup; [exact Hnd | apply dict_keys_filter_sublist]. Qed.

(** A [rebuild_index] that returns [True] leaves the live documents, in
    catalogue order, with the embeddings of their stored chunks as the
    index and with their metadata laid out from position 0. *)
Lemma rebuild_index_success e s :
  NoDup (Dict.keys (documents s)) ->
  (rebuild_index e s).1 = Ok true ->
  exists todo,
    map (fun x => x.1) todo = live_documents s
    /\ Forall (fun x => Dict.get x.1.1 (metadata s) = Some x.2) todo
    /\ documents (rebuild_index e s).2 = live_documents s
    /\ metadata (rebuild_index e s).2 = layout 0 todo
    /\ index (rebuild_index e s).2 = vectors_of (live_documents s).
Proof.
  intros Hnd. rewrite rebuild_index_unfold.
  destruct (active_docs s (documents s)) as [todo|] eqn:Hact; [|discriminate].
  destruct (active_docs_result _ _ _ Hact) as [Hlive Hmeta].
  pose proof (rebuild_loop_result e todo [] [] (set_id_to_index [] (set_index [] s)))
    as (_ & _ & Hres).
  cbn zeta in *.
  destruct (rebuild_loop e todo [] [] (set_id_to_index [] (set_index [] s)))
    as [[new|ex] s1]; [|discriminate].
  intros _. destruct (Hres new eq_refl) as [-> Hix]. simpl in *.
  assert (Hids : NoDup (map (fun x => x.1.1) todo)).
  { change (map (fun x => x.1.1) todo) with (map (fun x => fst (fst x)) todo).
    rewrite <- (map_map (fun x => fst x) fst), Hlive.
    now apply live_documents_NoDup. }
  exists todo. split_and!; auto.
  - rewrite fold_documents_fresh by auto. exact Hlive.
  - rewrite fold_metadata_fresh by auto. reflexivity.
  - rewrite Hix, Hlive. reflexivity.
Qed.

(** Whatever its outcome, [rebuild_index] returns a boolean, and when it
    is not [True] the documents and the keys of the metadata are the
    ones before the call. *)
Lemma rebuild_index_failure e s :
  (rebuild_index e s).1 = Ok true
  \/ (rebuild_index e s).1 = Ok false
     /\ documents (rebuild_index e s).2 = documents s
     /\ Dict.keys (metadata (rebuild_index e s).2) = Dict.keys (metadata s).
Proof.
  rewrite rebuild_index_unfold.
  destruct (active_docs s (documents s)) as [todo|]; [|right; auto].
  pose proof (rebuild_loop_result e todo [] [] (set_id_to_index [] (set_index [] s)))
    as (Hd & Hk & _).
  cbn zeta in *.
  destruct (rebuild_loop e todo [] [] (set_id_to_index [] (set_index [] s)))
    as [[new|ex] s1]; [now left | right]. simpl in *. auto.
Qed.

(** *** The invariant of all reachable stores *)

Lemma well_formed_empty : well_formed empty_store.
Proof. split_and!; simpl; [constructor | intros k [? ?]; discriminate | constructor]. Qed.

Lemma well_formed_step s c : well_formed s -> well_formed (step s c).
Proof.
  intros (Hnd & Hmeta & Hch). destruct c as [e doc_id raw md|e q k thr|doc_id|e doc_id|e];
    simpl.
  - destruct (add_document_effect e doc_id raw md s)
      as [->|(Hfresh & d & m & Hd1 & Hd2 & _ & _ & Hdocs & Hmd)];
      [now split_and!|].
    split_and!.
    + rewrite Hdocs, dict_keys_set_fresh by exact Hfresh.
      apply NoDup_app. split_and!; [exact Hnd | | apply NoDup_singleton].
      intros x Hx Hx'. apply list_elem_of_singleton in Hx'. subst x.
      now apply dict_get_None in Hfresh.
    + intros k. rewrite Hdocs, Hmd, !dict_get_is_Some_set.
      intros [->|Hk]; [now left | right; now apply Hmeta].
    + rewrite Hdocs, dict_set_fresh by exact Hfresh.
      apply Forall_app. split; [exact Hch|]. constructor; [|constructor].
      simpl. now rewrite Hd2, Hd1.
  - rewrite search_similar_effect. now split_and!.
  - rewrite get_document_effect. now split_and!.
  - destruct (delete_document_effect e doc_id s) as [->|(_ & Hdocs & Hmd)];
      [now split_and!|].
    unfold well_formed. rewrite Hdocs, Hmd. split_and!; auto.
    intros k Hk. apply dict_get_is_Some_mutate. now apply Hmeta.
  - destruct (rebuild_index_failure e s) as [Hok|(_ & Hdocs & Hkeys)].
    + destruct (rebuild_index_success e s Hnd Hok)
        as (todo & Hlive & _ & Hdocs & Hmd & _).
      unfold well_formed. rewrite Hdocs, Hmd. split_and!.
      * now apply live_documents_NoDup.
      * intros k. rewrite !dict_get_Some_keys, layout_keys.
        change (map (fun x => x.1.1) todo) with (map (fun x => fst (fst x)) todo).
        now rewrite <- (map_map (fun x => fst x) fst), Hlive.
      * unfold live_documents. rewrite Forall_forall in Hch. apply Forall_forall.
        intros p Hp. apply Hch. apply list_elem_of_In in Hp.
        apply filter_In in Hp as [Hp _]. now apply list_elem_of_In.
    + unfold well_formed. rewrite Hdocs. split_and!; auto.
      intros k Hk. apply dict_get_Some_keys. rewrite Hkeys.
      apply dict_get_Some_keys. now apply Hmeta.
Qed.

Lemma well_formed_run cs : forall s, well_formed s -> well_formed (run cs s).
Proof.
  unfold run. induction cs as [|c cs IH]; intros s Hs; simpl; [exact Hs|].
  apply IH, well_formed_step, Hs.
Qed.

Lemma reachable_well_formed s : reachable s -> well_formed s.
Proof. intros [cs ->]. apply well_formed_run, well_formed_empty. Qed.


(** X1.  A [rebuild_index] whose first embedding call fails has already
    replaced the index and the identifier map: it returns [False] over a
    store with an empty index, whatever the index held before. *)
Theorem failed_rebuild_empties_index e s :
  well_formed s ->
  live_documents s <> [] ->
  (forall texts, encode_ok e texts = false) ->
  rebuild_index e s = (Ok false, set_id_to_index [] (set_index [] s)).
Proof.
  intros (Hnd & Hmeta & _) Hlive Hfail. rewrite rebuild_index_unfold.
  destruct (active_docs_total s (documents s) Hmeta Hnd) as [todo Htodo].
  rewrite Htodo. destruct (active_docs_result _ _ _ Htodo) as [Hmap _].
  destruct todo as [|[[doc_id d] m] todo]; [now symmetry in Hmap|].
  cbn zeta. now rewrite rebuild_loop_cons, Hfail.
Qed.


End Rebuild.

(** ** The range invariant *)

Section Ranges.
Context `{Backend}.
Implicit Types (s : store) (e : env) (docs : dict doc_data) (metas : dict attrs)
  (ix : list vec).

Lemma laid_out_keys docs :
  forall metas ix start,
    laid_out start docs metas ix -> Dict.keys metas = Dict.keys docs.
Proof.
  induction docs as [|[doc_id d] docs IH]; intros [|[doc_id' m] metas] ix st Hl;
    simpl in Hl; try contradiction; [reflexivity|].
  destruct Hl as (-> & _ & _ & Hl). unfold Dict.keys in *. simpl.
  f_equal. eapply IH, Hl.
Qed.

Lemma take_eq_length {A} (n : nat) (l k : list A) :
  take n l = k -> length k = n -> (n <= length l)%nat.
Proof. intros <- Hn. rewrite length_take in Hn. lia. Qed.

(** a new document goes after the last range *)
Lemma laid_out_app docs :
  forall metas ix start doc_id d m,
    laid_out start docs metas ix ->
    range_of m = Some (start + Z.of_nat (length ix),
                       start + Z.of_nat (length ix) + Z.of_nat (length (chunks d)) - 1) ->
    laid_out start (docs ++ [(doc_id, d)]) (metas ++ [(doc_id, m)])
      (ix ++ map embed (chunks d)).
Proof.
  induction docs as [|[id0 d0] docs IH]; intros [|[id0' m0] metas] ix st doc_id d m Hl Hr;
    simpl in Hl; try contradiction.
  - subst ix. simpl in *. rewrite Z.add_0_r in Hr.
    split_and!; auto.
    + rewrite <- (length_map embed (chunks d)). apply firstn_all.
    + rewrite <- (length_map embed (chunks d)). apply skipn_all.
  - destruct Hl as (-> & Hr0 & Htake & Hl).
    pose proof (take_eq_length _ _ _ Htake (length_map _ _)) as Hle.
    simpl. split_and!; auto.
    + rewrite take_app_le by exact Hle. exact Htake.
    + rewrite drop_app_le by exact Hle. apply IH; [exact Hl|].
      rewrite length_drop.
      replace (st + Z.of_nat (length (chunks d0))
               + Z.of_nat (length ix - length (chunks d0)))
        with (st + Z.of_nat (length ix)) by lia.
      exact Hr.
Qed.

(** an assignment that leaves the range of a metadata dictionary alone *)
Lemma laid_out_mutate docs :
  forall metas ix start doc_id (f : attrs -> attrs),
    (forall m, range_of (f m) = range_of m) ->
    laid_out start docs metas ix ->
    laid_out start docs (Dict.mutate doc_id f metas) ix.
Proof.
  induction docs as [|[id0 d0] docs IH]; intros [|[id0' m0] metas] ix st doc_id f Hf Hl;
    simpl in Hl; try contradiction; [exact Hl|].
  destruct Hl as (-> & Hr0 & Htake & Hl). simpl.
  destruct (String.eqb doc_id id0'); simpl; split_and!; auto.
  now rewrite Hf.
Qed.

(** what a successful rebuild leaves is laid out *)
Lemma laid_out_layout (todo : list (string * doc_data * attrs)) :
  forall start,
    laid_out start (map (fun x => x.1) todo) (layout start todo)
      (vectors_of (map (fun x => x.1) todo)).
Proof.
  unfold vectors_of.
  induction todo as [|[[doc_id d] m] todo IH]; intros st; simpl; [reflexivity|].
  split_and!; auto.
  - apply range_of_rebuilt.
  - rewrite take_app_length'; [reflexivity | symmetry; apply length_map].
  - rewrite drop_app_length'; [apply IH | symmetry; apply length_map].
Qed.

Lemma contiguous_empty : contiguous empty_store.
Proof. split; simpl; [constructor | reflexivity]. Qed.

Lemma contiguous_step s c :
  contiguous s ->
  match c with
  | RebuildIndex e => (rebuild_index e s).1 = Ok true
  | _ => True
  end ->
  contiguous (step s c).
Proof.
  intros [Hnd Hl] Hc.
  destruct c as [e doc_id raw md|e q k thr|doc_id|e doc_id|e]; simpl.
  - destruct (add_document_effect e doc_id raw md s)
      as [->|(Hfresh & d & m & _ & _ & Hr & Hix & Hdocs & Hmd)];
      [now split|].
    assert (Hfresh' : Dict.get doc_id (metadata s) = None).
    { apply dict_get_None. rewrite (laid_out_keys _ _ _ _ Hl).
      now apply dict_get_None. }
    unfold contiguous. rewrite Hix, Hdocs, Hmd.
    rewrite (dict_set_fresh _ _ _ Hfresh), (dict_set_fresh _ _ _ Hfresh').
    split.
    + unfold Dict.keys. rewrite map_app. apply NoDup_app.
      split_and!; [exact Hnd | | apply NoDup_singleton].
      intros x Hx Hx'. apply list_elem_of_singleton in Hx'. subst x.
      now apply dict_get_None in Hfresh.
    + apply laid_out_app; [exact Hl|]. exact Hr.
  - rewrite search_similar_effect. now split.
  - rewrite get_document_effect. now split.
  - destruct (delete_document_effect e doc_id s) as [->|(Hix & Hdocs & Hmd)];
      [now split|].
    unfold contiguous. rewrite Hix, Hdocs, Hmd. split; [exact Hnd|].
    apply laid_out_mutate; [|exact Hl]. intros m. apply range_of_deleted.
  - destruct (rebuild_index_success e s Hnd Hc)
      as (todo & Hlive & _ & Hdocs & Hmd & Hix).
    unfold contiguous. rewrite Hdocs, Hmd, Hix. split.
    + now apply live_documents_NoDup.
    + rewrite <- Hlive. apply laid_out_layout.
Qed.

Lemma contiguous_run cs :
  forall s, contiguous s -> rebuilds_succeed cs s -> contiguous (run cs s).
Proof.
  unfold run. induction cs as [|c cs IH]; intros s Hs Hok; simpl; [exact Hs|].
  destruct Hok as [Hc Hok]. apply IH; [|exact Hok].
  apply contiguous_step; [exact Hs|]. now destruct c.
Qed.

(** *** From the layout to the three parts of the invariant *)

(** a recorded range only covers positions of the index *)
Lemma laid_out_bounds docs :
  forall metas ix start doc_id m r p,
    laid_out start docs metas ix ->
    (doc_id, m) ∈ metas -> range_of m = Some r -> covers r p ->
    start <= p < start + Z.of_nat (length ix).
Proof.
  induction docs as [|[id0 d0] docs IH]; intros [|[id0' m0] metas] ix st doc_id m r p Hl Hin Hr Hc;
    simpl in Hl; try contradiction; [inversion Hin|].
  destruct Hl as (-> & Hr0 & Htake & Hl).
  pose proof (take_eq_length _ _ _ Htake (length_map _ _)) as Hle.
  apply elem_of_cons in Hin as [Heq|Hin].
  - injection Heq as -> ->. rewrite Hr0 in Hr. injection Hr as <-.
    unfold covers in Hc. simpl in Hc. lia.
  - specialize (IH _ _ _ _ _ _ _ Hl Hin Hr Hc). rewrite length_drop in IH. lia.
Qed.

Lemma dict_get_elem_of {V} (k : string) (v : V) (d : dict V) :
  Dict.get k d = Some v -> (k, v) ∈ d.
Proof.
  induction d as [|[k' v'] d IH]; simpl; [discriminate|].
  destruct (String.eqb_spec k k') as [->|].
  - intros [= ->]. now left.
  - intros Hg. right. now apply IH.
Qed.






End Ranges.

(** ** Tombstones *)

Section Tombstones.
Context `{Backend}.
Implicit Types (s : store) (e : env).

Lemma same_hits_length res res' : same_hits res res' -> length res = length res'.
Proof. intros Hs. apply (f_equal length) in Hs. now rewrite !length_map in Hs. Qed.

Lemma find_doc_mutate (f : attrs -> attrs) doc_id (metas : dict attrs) idx :
  (forall m key, key = "start_index" \/ key = "end_index" -> f m !! key = m !! key) ->
  find_doc (Dict.mutate doc_id f metas) idx = find_doc metas idx.
Proof.
  intros Hf. induction metas as [|[id0 m0] metas IH]; simpl; [reflexivity|].
  destruct (String.eqb doc_id id0); simpl.
  - rewrite !Hf by auto. reflexivity.
  - now rewrite IH.
Qed.

Lemma search_loop_same s s' k thr hits :
  (forall idx, _find_doc_by_index s' idx = _find_doc_by_index s idx) ->
  (forall doc_id idx, _get_chunk_content s' doc_id idx = _get_chunk_content s doc_id idx) ->
  documents s' = documents s ->
  forall results results' seen,
    same_hits results results' ->
    same_outcome (search_loop s k thr hits results seen)
                 (search_loop s' k thr hits results' seen).
Proof.
  intros Hfind Hchunk Hdocs.
  induction hits as [|[score idx] hits IH]; intros results results' seen Hsame; simpl.
  - exact Hsame.
  - destruct (Qltb score thr); [now apply IH|].
    rewrite Hfind. destruct (_find_doc_by_index s idx) as [[doc_id|]|];
      [|now apply IH|exact I].
    destruct (negb (is_empty doc_id) && negb (bool_decide (doc_id ∈ seen)));
      [|now apply IH].
    rewrite Hchunk, Hdocs.
    destruct (_get_chunk_content s doc_id idx) as [chunk|]; [|exact I].
    match goal with
    | |- same_outcome
           (if _ then Ok (results ++ [?h]) else _)
           (if _ then Ok (results' ++ [?h']) else _) =>
        assert (Hsame' : same_hits (results ++ [h]) (results' ++ [h']))
    end.
    { unfold same_hits in *. rewrite !map_app, Hsame. reflexivity. }
    rewrite <- (same_hits_length _ _ Hsame').
    destruct (_ >=? k); [exact Hsame' | now apply IH].
Qed.

Lemma search_similar_unfold e query k thr s :
  search_similar e query k thr s
  = (Ok (if ntotal s =? 0 then []
         else if encode_ok e [query] then
           match index_search (index s) (map embed [query])
                   (Z.min (k * 2) (ntotal s)) with
           | Some (row :: _) =>
               match search_loop s k thr row [] ∅ with
               | Ok res => res
               | Raise _ => []
               end
           | _ => []
           end
         else []), s).
Proof.
  unfold search_similar, try_except, bind, get_store, encode, lift, ret, raise.
  destruct (ntotal s =? 0); [reflexivity|].
  destruct (encode_ok e [query]); [|reflexivity].
  destruct (index_search _ _ _) as [[|row rows]|]; try reflexivity.
  destruct (search_loop s k thr row [] ∅); reflexivity.
Qed.

(** X3.  [search_similar] never reads the tombstone: marking a document as
    deleted changes no search result, up to the metadata handed out with
    it. *)
Theorem search_similar_ignores_tombstone e e' doc_id query k thr s :
  same_outcome (search_similar e query k thr (delete_document e' doc_id s).2).1
               (search_similar e query k thr s).1.
Proof.
  destruct (delete_document_effect e' doc_id s) as [->|(Hix & Hdocs & Hmd)].
  { destruct (search_similar e query k thr s).1; simpl; reflexivity. }
  set (s' := (delete_document e' doc_id s).2) in *.
  assert (Hlook : forall (m : attrs) key,
             key = "start_index" \/ key = "end_index" ->
             (<["deleted_at" := VStr (now e')]> (<["deleted" := VBool true]> m)) !! key
             = m !! key).
  { intros m key [->| ->]; by simplify_map_eq. }
  assert (Hfind : forall idx, _find_doc_by_index s' idx = _find_doc_by_index s idx).
  { intros idx. unfold _find_doc_by_index. rewrite Hmd. now apply find_doc_mutate. }
  assert (Hchunk : forall id idx,
             _get_chunk_content s' id idx = _get_chunk_content s id idx).
  { intros id idx. unfold _get_chunk_content. rewrite Hdocs, Hmd, dict_get_mutate.
    destruct (String.eqb doc_id id); [|reflexivity].
    destruct (Dict.get id (metadata s)) as [m|]; simpl; [|reflexivity].
    now rewrite Hlook by auto. }
  rewrite !search_similar_unfold. unfold ntotal. rewrite Hix. cbn [fst].
  destruct (_ =? 0); [reflexivity|].
  destruct (encode_ok e [query]); [|reflexivity].
  destruct (index_search _ _ _) as [[|row rows]|]; try reflexivity.
  pose proof (search_loop_same s s' k thr row Hfind Hchunk Hdocs [] [] ∅ eq_refl) as Hl.
  destruct (search_loop s k thr row [] ∅), (search_loop s' k thr row [] ∅);
    simpl in *; try contradiction; try reflexivity.
  unfold same_hits in *. congruence.
Qed.

(** A successful [delete_document] on a reachable store leaves the
    document tombstoned. *)
Lemma delete_document_tombstones e doc_id s :
  well_formed s ->
  (delete_document e doc_id s).1 = Ok true ->
  is_active (delete_document e doc_id s).2 doc_id = false.
Proof.
  intros (_ & Hmeta & _).
  unfold delete_document, try_except, bind, get_store, mutate_metadata,
    _save_index, modify, ret.
  destruct (Dict.mem doc_id (documents s)) eqn:Hd; [|discriminate].
  apply dict_mem_get, Hmeta in Hd. pose proof Hd as [m Hm].
  apply dict_mem_get in Hd. rewrite Hd. intros _. cbn [snd].
  unfold is_active. cbn [metadata set_metadata].
  rewrite dict_get_mutate, String.eqb_refl, Hm. simpl. by simplify_map_eq.
Qed.

(** X4.  After a successful [delete_document] and a [rebuild_index] that goes
    through, [get_document] no longer knows the document. *)
Theorem deleted_document_gone_after_rebuild e e' doc_id s :
  reachable s ->
  (delete_document e doc_id s).1 = Ok true ->
  (rebuild_index e' (delete_document e doc_id s).2).1 = Ok true ->
  (get_document doc_id (rebuild_index e' (delete_document e doc_id s).2).2).1 = Ok None.
Proof.
  intros Hreach Hdel Hre. pose proof (reachable_well_formed s Hreach) as Hwf.
  pose proof (delete_document_tombstones e doc_id s Hwf Hdel) as Hdead.
  assert (Hwf' : well_formed (delete_document e doc_id s).2)
    by apply (well_formed_step s (DeleteDocument e doc_id) Hwf).
  set (s1 := (delete_document e doc_id s).2) in *.
  destruct Hwf' as (Hnd & _ & _).
  destruct (rebuild_index_success e' s1 Hnd Hre) as (todo & _ & _ & Hdocs & _ & _).
  unfold get_document, bind, get_store, ret. rewrite Hdocs.
  unfold live_documents. rewrite (dict_get_filter (is_active s1)), Hdead. reflexivity.
Qed.

End Tombstones.

(** ** More on strings *)

Section InkFacts.
Import Str.

Lemma has_ink_app s t : has_ink (s +:+ t) = has_ink s || has_ink t.
Proof.
  induction s as [|c s IH]; [reflexivity|].
  change (has_ink (String c s +:+ t)) with (negb (is_space c) || has_ink (s +:+ t)).
  rewrite IH. simpl. now rewrite orb_assoc.
Qed.

Lemma has_ink_lstrip s : has_ink (lstrip s) = has_ink s.
Proof.
  induction s as [|c s IH]; [reflexivity|]. simpl.
  destruct (is_space c) eqn:E; simpl; [exact IH | now rewrite E].
Qed.

Lemma is_empty_rstrip s : is_empty (rstrip s) = negb (has_ink s).
Proof.
  induction s as [|c s IH]; [reflexivity|]. simpl.
  destruct (is_space c); simpl; [|reflexivity].
  rewrite IH. now destruct (has_ink s).
Qed.

(** a text strips to nothing exactly when it is all white space *)
Lemma is_empty_strip s : is_empty (strip s) = negb (has_ink s).
Proof. unfold strip. now rewrite is_empty_rstrip, has_ink_lstrip. Qed.

Lemma has_ink_rstrip s : has_ink (rstrip s) = has_ink s.
Proof.
  induction s as [|c s IH]; [reflexivity|]. simpl.
  destruct (is_space c && is_empty (rstrip s)) eqn:E; simpl.
  - apply andb_prop in E as [Hc He]. rewrite is_empty_rstrip in He.
    rewrite Hc. simpl. now destruct (has_ink s).
  - now rewrite IH.
Qed.

Lemma has_ink_strip s : has_ink (strip s) = has_ink s.
Proof. unfold strip. now rewrite has_ink_rstrip, has_ink_lstrip. Qed.

Lemma has_ink_nonempty s : has_ink s = true -> is_empty s = false.
Proof. now destruct s. Qed.

Lemma all_chars_app p s t : all_chars p (s +:+ t) = all_chars p s && all_chars p t.
Proof.
  induction s as [|c s IH]; [reflexivity|].
  change (all_chars p (String c s +:+ t)) with (p c && all_chars p (s +:+ t)).
  rewrite IH. simpl. now rewrite andb_assoc.
Qed.

Lemma all_chars_suffix p s' s : suffix_of s' s -> all_chars p s = true -> all_chars p s' = true.
Proof. intros [pre ->]. rewrite all_chars_app. intros H. now apply andb_prop in H. Qed.

Lemma all_chars_lstrip p s : all_chars p s = true -> all_chars p (lstrip s) = true.
Proof.
  induction s as [|c s IH]; [reflexivity|]. simpl. intros H.
  apply andb_prop in H as [Hc Hs]. destruct (is_space c); [auto|].
  simpl. now rewrite Hc, Hs.
Qed.

Lemma all_chars_rstrip p s : all_chars p s = true -> all_chars p (rstrip s) = true.
Proof.
  induction s as [|c s IH]; [reflexivity|]. simpl. intros H.
  apply andb_prop in H as [Hc Hs].
  destruct (is_space c && is_empty (rstrip s)); [reflexivity|].
  simpl. now rewrite Hc, IH.
Qed.

Lemma all_chars_strip p s : all_chars p s = true -> all_chars p (strip s) = true.
Proof. intros H. unfold strip. now apply all_chars_rstrip, all_chars_lstrip. Qed.

Lemma suffix_of_refl s : suffix_of s s.
Proof. now exists EmptyString. Qed.

Lemma append_assoc s t u : (s +:+ t) +:+ u = s +:+ t +:+ u.
Proof.
  induction s as [|c s IH]; [reflexivity|].
  change (String c ((s +:+ t) +:+ u) = String c (s +:+ t +:+ u)). now rewrite IH.
Qed.

Lemma suffix_of_trans s1 s2 s3 : suffix_of s1 s2 -> suffix_of s2 s3 -> suffix_of s1 s3.
Proof. intros [p1 ->] [p2 ->]. exists (p2 +:+ p1). now rewrite append_assoc. Qed.

Lemma suffix_of_cons c s : suffix_of s (String c s).
Proof. now exists (String c EmptyString). Qed.

Lemma length_append s t : String.length (s +:+ t) = (String.length s + String.length t)%nat.
Proof.
  induction s as [|c s IH]; [reflexivity|].
  change (S (String.length (s +:+ t)) = S (String.length s + String.length t)).
  now rewrite IH.
Qed.

Lemma suffix_of_length s' s : suffix_of s' s -> (String.length s' <= String.length s)%nat.
Proof. intros [pre ->]. rewrite length_append. lia. Qed.

(** a text without the separator is one piece *)
Lemma split_no_sep s : all_chars (fun c => negb (Ascii.eqb c nl)) s = true -> no_newline s.
Proof.
  unfold no_newline. induction s as [|c s IH]; [reflexivity|]. simpl. intros H.
  apply andb_prop in H as [Hc Hs]. apply negb_true_iff in Hc.
  now rewrite Hc, (IH Hs).
Qed.

Lemma split_pieces_ink s :
  has_ink s = false -> Forall (fun p => has_ink p = false) (split nl s).
Proof.
  induction s as [|c s IH]; simpl; intros H.
  - now constructor.
  - apply orb_false_elim in H as [Hc Hs]. specialize (IH Hs).
    destruct (Ascii.eqb c nl); [now constructor|].
    destruct (split nl s) as [|p ps]; [constructor; [simpl; now rewrite Hc | constructor]|].
    inversion IH; subst. constructor; [simpl; now rewrite Hc | assumption].
Qed.

End InkFacts.

(** ** The regular expressions *)

Section ReFacts.
Import Str Re.

(** Whatever a pattern matches, the match ends inside the text: the
    continuation is run on a suffix of it. *)
Lemma rmatch_suffix r :
  forall prev s k e,
    rmatch r prev s k = Some e ->
    exists prev' s', suffix_of s' s /\ k prev' s' = Some e.
Proof.
  induction r as [|p|r1 IH1 r2 IH2|r1 IH1 r2 IH2|r1 IH1|]; intros prev s k e Hm; simpl in Hm.
  - exists prev, s. split; [apply suffix_of_refl | exact Hm].
  - destruct s as [|c s0]; [discriminate|]. destruct (p c); [|discriminate].
    exists (Some c), s0. split; [apply suffix_of_cons | exact Hm].
  - apply IH1 in Hm as (p1 & s1 & Hs1 & Hm). apply IH2 in Hm as (p2 & s2 & Hs2 & Hm).
    exists p2, s2. split; [eapply suffix_of_trans; eauto | exact Hm].
  - destruct (rmatch r1 prev s k) eqn:E1.
    + injection Hm as ->. now apply IH1 in E1.
    + now apply IH2 in Hm.
  - revert Hm. generalize (String.length s) as fuel. intros fuel. revert prev s.
    induction fuel as [|fuel IHf]; intros prev s Hm.
    + exists prev, s. split; [apply suffix_of_refl | exact Hm].
    + match type of Hm with
      | match ?m with _ => _ end = _ => destruct m eqn:E1
      end.
      * injection Hm as ->. apply IH1 in E1 as (p1 & s1 & Hs1 & E1).
        destruct (String.length s1 <? String.length s)%nat; [|discriminate].
        apply IHf in E1 as (p2 & s2 & Hs2 & E1).
        exists p2, s2. split; [eapply suffix_of_trans; eauto | exact E1].
      * exists prev, s. split; [apply suffix_of_refl | exact Hm].
  - destruct (xorb _ _); [|discriminate].
    exists prev, s. split; [apply suffix_of_refl | exact Hm].
Qed.

Lemma match_here_suffix r prev s prev' s' :
  match_here r prev s = Some (prev', s') -> suffix_of s' s.
Proof.
  unfold match_here. intros Hm. apply rmatch_suffix in Hm as (p & t & Hs & Hk).
  now injection Hk as -> ->.
Qed.

(** Removing matches ([repl] empty) only removes characters. *)
Lemma sub_from_removes p r fuel :
  forall prev s,
    all_chars p s = true -> all_chars p (sub_from fuel r EmptyString prev s) = true.
Proof.
  induction fuel as [|fuel IH]; intros prev s Hs; simpl; [exact Hs|].
  destruct (match_here r prev s) as [[prev' s']|] eqn:Hm.
  - pose proof (all_chars_suffix p _ _ (match_here_suffix _ _ _ _ _ Hm) Hs) as Hs'.
    destruct (String.length s' <? String.length s)%nat.
    + apply IH, Hs'.
    + destruct s as [|c t]; [reflexivity|]. simpl in *.
      apply andb_prop in Hs as [Hc Ht]. now rewrite Hc, IH.
  - destruct s as [|c t]; [reflexivity|]. simpl in *.
    apply andb_prop in Hs as [Hc Ht]. now rewrite Hc, IH.
Qed.

Lemma sub_removes p r s :
  all_chars p s = true -> all_chars p (Re.sub r EmptyString s) = true.
Proof. apply sub_from_removes. Qed.

(** A greedy repetition never fails: it may match nothing. *)
Lemma rmatch_star_total r prev s :
  rmatch (Star r) prev s (fun prev' s' => Some (prev', s')) <> None.
Proof.
  simpl. generalize (String.length s) as fuel. intros [|fuel]; [discriminate|].
  match goal with |- match ?m with _ => _ end <> _ => destruct m; discriminate end.
Qed.

(** [\s+] matches wherever a white-space character stands, and takes at
    least that character. *)
Lemma ws_match_here prev c t :
  match match_here ws_pattern prev (String c t) with
  | Some (_, s') => is_space c = true /\ suffix_of s' t
  | None => is_space c = false
  end.
Proof.
  unfold match_here, ws_pattern, Plus.
  change (rmatch (Cat (Chr is_space) (Star (Chr is_space))) prev (String c t)
            (fun prev' s' => Some (prev', s')))
    with (if is_space c
          then rmatch (Star (Chr is_space)) (Some c) t (fun prev' s' => Some (prev', s'))
          else None).
  destruct (is_space c) eqn:Hc; [|reflexivity].
  destruct (rmatch (Star (Chr is_space)) (Some c) t _) as [[p' s']|] eqn:Hm.
  - split; [reflexivity|]. apply rmatch_suffix in Hm as (p1 & s1 & Hs & Hk).
    now injection Hk as -> ->.
  - now apply rmatch_star_total in Hm.
Qed.

(** After [re.sub(r'\s+', ' ', text)] the only white space left is the
    plain blank. *)
Lemma sub_ws_plain fuel :
  forall prev s, all_chars plain (sub_from fuel ws_pattern " " prev s) = true
                 \/ (fuel <= String.length s)%nat.
Proof.
  induction fuel as [|fuel IH]; intros prev s; [right; lia|].
  destruct s as [|c t].
  - left. simpl. now destruct (match_here ws_pattern prev EmptyString) as [[? ?]|].
  - pose proof (ws_match_here prev c t) as Hws. simpl.
    destruct (match_here ws_pattern prev (String c t)) as [[prev' s']|].
    + destruct Hws as [Hc Hsuf]. pose proof (suffix_of_length _ _ Hsuf) as Hlen.
      assert (Hlt : (String.length s' <? S (String.length t))%nat = true)
        by (apply Nat.ltb_lt; lia).
      rewrite Hlt.
      destruct (IH prev' s') as [Hp|Hf]; [left; exact Hp | right; simpl; lia].
    + destruct (IH (Some c) t) as [Hp|Hf]; [left | right; simpl; lia].
      simpl. unfold plain at 1. now rewrite Hws, Hp.
Qed.

Lemma sub_ws_all_plain s : all_chars plain (Re.sub ws_pattern " " s) = true.
Proof. unfold Re.sub. destruct (sub_ws_plain (S (String.length s)) None s); [assumption | lia]. Qed.

Lemma preprocess_text_chars (text : string) :
  all_chars plain (_preprocess_text text) = true.
Proof.
  unfold _preprocess_text.
  apply all_chars_strip, sub_removes, sub_removes, sub_ws_all_plain.
Qed.

Lemma preprocess_text_stripped (text : string) :
  strip (_preprocess_text text) = _preprocess_text text.
Proof. unfold _preprocess_text. apply strip_idem. Qed.

(** X5.  What [_preprocess_text] returns holds no white space but plain
    blanks -- no line break, no tab -- and none of them at either end. *)
Theorem preprocess_text_plain (text : string) :
  all_chars plain (_preprocess_text text) = true
  /\ strip (_preprocess_text text) = _preprocess_text text.
Proof. split; [apply preprocess_text_chars | apply preprocess_text_stripped]. Qed.

End ReFacts.

(** ** The chunker *)

Section ChunkerFacts.
Import Str.

Lemma chunk_ok_strip s : has_ink s = true -> chunk_ok (strip s).
Proof. intros Hs. split; [now rewrite has_ink_strip | apply strip_idem]. Qed.

Lemma pending_ink s : has_ink s = true -> pending s = 1%nat.
Proof. intros Hs. unfold pending. now rewrite (has_ink_nonempty s Hs). Qed.

(** One turn of the loop: closed chunks stay closed and good, the buffer
    is empty or holds ink, and at most one chunk is added or owed, and
    only for a paragraph that is not blank. *)
Lemma split_step_invariant (max_tokens overlap : Z) (chunks : list string) (cur p : string) :
  Forall chunk_ok chunks -> buffer_ok cur ->
  let out := split_step max_tokens overlap (chunks, cur) p in
  Forall chunk_ok out.1 /\ buffer_ok out.2
  /\ (length out.1 + pending out.2
      <= length chunks + pending cur + (if has_ink p then 1 else 0))%nat
  /\ (has_ink p = true \/ pending cur = 1%nat -> pending out.2 = 1%nat).
Proof.
  intros Hch Hcur. unfold split_step. rewrite is_empty_strip.
  destruct (has_ink p) eqn:Hp; simpl negb; cbv iota.
  2:{ simpl. split_and!; auto; [lia | now intros [|]]. }
  assert (Hq : has_ink (strip p) = true) by now rewrite has_ink_strip.
  destruct (Qltb _ _).
  - destruct (is_empty cur) eqn:He; simpl.
    + split_and!; auto; [now right | | intros _; now apply pending_ink].
      rewrite (pending_ink _ Hq). unfold pending. rewrite He. lia.
    + assert (Hink : has_ink cur = true) by (destruct Hcur; congruence).
      assert (Hnew : has_ink (overlap_text overlap cur +:+ newline +:+ strip p) = true)
        by (rewrite !has_ink_app, Hq; now rewrite !orb_true_r).
      split_and!.
      * apply Forall_app. split; [exact Hch|]. constructor; [|constructor].
        now apply chunk_ok_strip.
      * now right.
      * rewrite length_app, (pending_ink _ Hnew). unfold pending. rewrite He. simpl. lia.
      * intros _. now apply pending_ink.
  - simpl.
    assert (Hnew : has_ink (cur +:+ (if negb (is_empty cur) then newline +:+ strip p
                                     else strip p)) = true).
    { rewrite has_ink_app. destruct (negb (is_empty cur));
        rewrite ?has_ink_app, Hq; now rewrite !orb_true_r. }
    split_and!; auto; [now right | | intros _; now apply pending_ink].
    rewrite (pending_ink _ Hnew). unfold pending. destruct (is_empty cur); lia.
Qed.

Lemma split_fold_invariant (max_tokens overlap : Z) (ps : list string) :
  forall chunks cur,
    Forall chunk_ok chunks -> buffer_ok cur ->
    let out := fold_left (split_step max_tokens overlap) ps (chunks, cur) in
    Forall chunk_ok out.1 /\ buffer_ok out.2
    /\ (length out.1 + pending out.2
        <= length chunks + pending cur + length (List.filter has_ink ps))%nat
    /\ (List.filter has_ink ps <> [] \/ pending cur = 1%nat -> pending out.2 = 1%nat).
Proof.
  induction ps as [|p ps IH]; intros chunks cur Hch Hcur; cbn [fold_left List.filter].
  - simpl. split_and!; auto; [lia | now intros [|]].
  - pose proof (split_step_invariant max_tokens overlap chunks cur p Hch Hcur)
      as (H1 & H2 & H3 & H4).
    destruct (split_step max_tokens overlap (chunks, cur) p) as [chunks' cur'].
    cbn [fst snd] in *. destruct (IH chunks' cur' H1 H2) as (I1 & I2 & I3 & I4).
    split_and!; auto.
    + destruct (has_ink p); simpl; lia.
    + intros Hor. apply I4. destruct (has_ink p) eqn:Hp.
      * right. apply H4. now left.
      * destruct Hor as [Hne|Hpend]; [now left | right; apply H4; now right].
Qed.

(** X6.  Every chunk [_split_text] emits holds a character that is not white
    space and has no white space at either end; there are at most as many
    chunks as paragraphs that are not blank, and none exactly when there
    is no such paragraph. *)
Theorem split_text_chunks (text : string) (max_tokens overlap : Z) :
  Forall chunk_ok (_split_text text max_tokens overlap)
  /\ (length (_split_text text max_tokens overlap)
      <= length (nonblank_paragraphs text))%nat
  /\ (_split_text text max_tokens overlap = [] <-> nonblank_paragraphs text = []).
Proof.
  unfold _split_text, nonblank_paragraphs.
  pose proof (split_fold_invariant max_tokens overlap (split nl text) [] EmptyString
                (List.Forall_nil _) (or_introl eq_refl)) as (H1 & H2 & H3 & H4).
  destruct (fold_left _ _ _) as [chunks cur]. simpl in *.
  unfold pending in H3, H4.
  destruct (is_empty cur) eqn:He; simpl.
  - split_and!; [exact H1 | lia |]. split.
    + intros ->. destruct (List.filter has_ink (split nl text)) eqn:Hf; [reflexivity|].
      assert (0 = 1)%nat by (apply H4; now left). lia.
    + intros Hf. rewrite Hf in H3. simpl in H3. destruct chunks; [reflexivity | simpl in H3; lia].
  - assert (Hink : has_ink cur = true) by (destruct H2; congruence).
    split_and!.
    + apply Forall_app. split; [exact H1|]. constructor; [|constructor].
      now apply chunk_ok_strip.
    + rewrite length_app. simpl. lia.
    + split.
      * intros Hnil. now destruct chunks.
      * intros Hf. rewrite Hf in H3. simpl in H3. lia.
Qed.

(** A text without ink -- empty, or blanks and line breaks only -- gives
    no chunk. *)
Lemma nonblank_paragraphs_blank (text : string) :
  has_ink text = false -> nonblank_paragraphs text = [].
Proof.
  intros Hb. unfold nonblank_paragraphs. pose proof (split_pieces_ink text Hb) as Hall.
  induction Hall as [|p ps Hp _ IH]; [reflexivity|]. simpl. now rewrite Hp.
Qed.

Lemma split_text_one (text : string) (max_tokens overlap : Z) :
  no_newline text ->
  _split_text text max_tokens overlap
  = if has_ink text then [strip text] else [].
Proof.
  intros Hone. unfold _split_text. rewrite Hone. cbn [fold_left].
  destruct (has_ink text) eqn:Hink.
  - rewrite split_step_first.
    + rewrite is_empty_strip, Hink. simpl. now rewrite strip_idem.
    + intros Hs. pose proof (is_empty_strip text) as He. rewrite Hs, Hink in He.
      discriminate.
  - unfold split_step. rewrite is_empty_strip, Hink. reflexivity.
Qed.

(** X7.  A single paragraph is one chunk, whatever its length and the bound
    asked for: the text is never cut inside a paragraph. *)
Theorem split_text_single_paragraph (text : string) (max_tokens overlap : Z) :
  no_newline text -> has_ink text = true ->
  _split_text text max_tokens overlap = [strip text].
Proof. intros Hone Hink. now rewrite split_text_one, Hink. Qed.

Lemma all_chars_impl (p q : ascii -> bool) s :
  (forall c, p c = true -> q c = true) -> all_chars p s = true -> all_chars q s = true.
Proof.
  intros Hpq. induction s as [|c s IH]; [reflexivity|]. simpl. intros H.
  apply andb_prop in H as [Hc Hs]. now rewrite (Hpq c Hc), IH.
Qed.

Lemma plain_not_newline c : plain c = true -> negb (Ascii.eqb c nl) = true.
Proof.
  destruct (Ascii.eqb_spec c nl) as [->|]; [|reflexivity]. vm_compute. discriminate.
Qed.

Lemma preprocess_text_no_newline (text : string) : no_newline (_preprocess_text text).
Proof.
  apply split_no_sep. eapply all_chars_impl; [apply plain_not_newline|].
  apply preprocess_text_chars.
Qed.

(** The chunker of [add_document] never sees a paragraph break: the
    normalizer has turned every line break into a blank. *)
Lemma rechunk_whole_text (raw : string) :
  rechunk raw
  = if is_empty (_preprocess_text raw) then [] else [_preprocess_text raw].
Proof.
  unfold rechunk. rewrite (split_text_one _ 512 50 (preprocess_text_no_newline raw)).
  pose proof (is_empty_strip (_preprocess_text raw)) as He.
  rewrite preprocess_text_stripped in *.
  rewrite He. now destruct (has_ink (_preprocess_text raw)).
Qed.

End ChunkerFacts.

(** ** Adding, reading and deleting one document *)

Section DocumentFacts.
Context `{Backend}.
Implicit Types (s : store) (e : env).

(** The three ways [add_document] ends. *)
Lemma add_document_cases e doc_id raw md s :
  (Dict.mem doc_id (documents s) = true
   /\ add_document e doc_id raw md s = (Ok true, s))
  \/ (Dict.mem doc_id (documents s) = false /\ encode_ok e (rechunk raw) = false
      /\ add_document e doc_id raw md s = (Ok false, s))
  \/ (Dict.mem doc_id (documents s) = false /\ encode_ok e (rechunk raw) = true
      /\ (add_document e doc_id raw md s).1 = Ok true
      /\ index (add_document e doc_id raw md s).2 = index s ++ map embed (rechunk raw)
      /\ documents (add_document e doc_id raw md s).2
         = Dict.set doc_id
             {| text := raw; processed_text := _preprocess_text raw;
                chunks := rechunk raw;
                chunk_count := Z.of_nat (length (rechunk raw)) |} (documents s)
      /\ metadata (add_document e doc_id raw md s).2
         = Dict.set doc_id
             (update [("doc_id", VStr doc_id);
                      ("chunk_count", VInt (Z.of_nat (length (rechunk raw))));
                      ("start_index", VInt (ntotal s));
                      ("end_index", VInt (ntotal s + Z.of_nat (length (rechunk raw)) - 1));
                      ("created_at", VStr (now e));
                      ("vector_model", VStr model_name)] (default ∅ md))
             (metadata s)).
Proof.
  unfold add_document, try_except, bind, get_store, encode, index_add,
    store_document, store_metadata, map_chunks, _save_index, modify, ret, raise.
  fold (rechunk raw).
  destruct (Dict.mem doc_id (documents s)); [now left | right].
  destruct (encode_ok e (rechunk raw)); [right | now left].
  split_and!; reflexivity.
Qed.

(** X8.  A failure of the embedding model leaves the store as it was:
    [add_document] returns [False] before anything is assigned. *)
Theorem add_document_embed_failure e doc_id raw md s :
  Dict.mem doc_id (documents s) = false ->
  encode_ok e (rechunk raw) = false ->
  add_document e doc_id raw md s = (Ok false, s).
Proof.
  intros Hfresh Hfail.
  destruct (add_document_cases e doc_id raw md s) as [[Hm _]|[(_ & _ & Hr)|(_ & Hok & _)]];
    congruence.
Qed.

Lemma get_document_lookup doc_id s :
  (get_document doc_id s).1
  = Ok (match Dict.get doc_id (documents s) with
        | Some d => Some {| g_doc_id := doc_id; g_content := text d;
                            g_metadata := default ∅ (Dict.get doc_id (metadata s));
                            g_chunks := chunks d |}
        | None => None
        end).
Proof.
  unfold get_document, bind, get_store, ret.
  now destruct (Dict.get doc_id (documents s)).
Qed.



(** The two ways [delete_document] ends. *)
Lemma delete_document_cases e doc_id s :
  (Dict.mem doc_id (documents s) = false
   /\ delete_document e doc_id s = (Ok false, s))
  \/ (Dict.mem doc_id (documents s) = true
      /\ (delete_document e doc_id s).1 = Ok true
      /\ index (delete_document e doc_id s).2 = index s
      /\ documents (delete_document e doc_id s).2 = documents s
      /\ id_to_index (delete_document e doc_id s).2 = id_to_index s
      /\ metadata (delete_document e doc_id s).2
         = Dict.mutate doc_id
             (fun m => <["deleted_at" := VStr (now e)]> (<["deleted" := VBool true]> m))
             (metadata s)).
Proof.
  unfold delete_document, try_except, bind, get_store, mutate_metadata,
    _save_index, modify, ret.
  destruct (Dict.mem doc_id (documents s)); [right | now left].
  destruct (Dict.mem doc_id (metadata s)) eqn:Hm; split_and!; try reflexivity.
  simpl. apply dict_mem_false in Hm. clear -Hm.
  induction (metadata s) as [|[k v] l IH]; [reflexivity|]. simpl in *.
  destruct (String.eqb doc_id k); [discriminate|]. now rewrite <- IH.
Qed.

(** X11.  [delete_document] on an identifier that is not stored returns
    [False] and changes nothing. *)
Theorem delete_document_unknown e doc_id s :
  Dict.mem doc_id (documents s) = false ->
  delete_document e doc_id s = (Ok false, s).
Proof.
  intros Hm.
  destruct (delete_document_cases e doc_id s) as [[_ Hr]|(Hm' & _)]; congruence.
Qed.

(** X12.  [delete_document] is a soft delete.  For a stored identifier it
    returns [True]; the vectors and the documents stay, every range is
    kept, and every document reads as before through [get_document] but
    for the two keys [deleted] and [deleted_at] of the deleted one. *)
Theorem delete_document_soft e doc_id s :
  Dict.mem doc_id (documents s) = true ->
  (delete_document e doc_id s).1 = Ok true
  /\ index (delete_document e doc_id s).2 = index s
  /\ forall doc_id',
       range (delete_document e doc_id s).2 doc_id' = range s doc_id'
       /\ match (get_document doc_id' s).1,
                (get_document doc_id' (delete_document e doc_id s).2).1 with
          | Ok (Some v), Ok (Some v') =>
              g_content v' = g_content v /\ g_chunks v' = g_chunks v
              /\ forall key, key <> "deleted" -> key <> "deleted_at" ->
                             g_metadata v' !! key = g_metadata v !! key
          | Ok None, Ok None => True
          | _, _ => False
          end.
Proof.
  intros Hknown.
  destruct (delete_document_cases e doc_id s)
    as [[Hm Hr]|(Hm & Hr & Hix & Hdocs & _ & Hmd)]; [congruence|].
  split_and!; auto. intros doc_id'.
  rewrite !get_document_lookup. unfold range. rewrite Hdocs, Hmd, dict_get_mutate.
  destruct (String.eqb doc_id doc_id').
  - split.
    + destruct (Dict.get doc_id' (metadata s)) as [m|]; simpl; [|reflexivity].
      apply range_of_deleted.
    + destruct (Dict.get doc_id' (documents s)); [|exact I]. simpl.
      split_and!; auto. intros key H1 H2.
      destruct (Dict.get doc_id' (metadata s)) as [m|]; simpl; [|reflexivity].
      by simplify_map_eq.
  - split; [reflexivity|]. destruct (Dict.get doc_id' (documents s)); simpl; auto.
Qed.

(** X13.  A deleted document still exists for the [DocumentManager], and for
    [add_document]: adding under the identifier again returns [True],
    stores nothing and leaves the document tombstoned. *)
Theorem deleted_document_is_not_replaced e e' doc_id content md save_immediately s :
  (DocumentManager.document_exists doc_id s).1 = Ok true ->
  let s1 := (DocumentManager.remove_document e doc_id s).2 in
  (DocumentManager.remove_document e doc_id s).1 = Ok true
  /\ (DocumentManager.document_exists doc_id s1).1 = Ok true
  /\ DocumentManager.add_document e' doc_id content md save_immediately s1 = (Ok true, s1)
  /\ (is_Some (Dict.get doc_id (metadata s)) -> is_active s1 doc_id = false).
Proof.
  intros Hex s1. subst s1.
  unfold DocumentManager.document_exists, DocumentManager.remove_document,
    DocumentManager.add_document in *.
  set (s1 := (delete_document e doc_id s).2).
  assert (Hmem : Dict.mem doc_id (documents s) = true).
  { unfold bind, ret in Hex. pose proof (get_document_lookup doc_id s) as Hg.
    destruct (get_document doc_id s) as [[v|ex] s0]; simpl in *; [|discriminate].
    injection Hg as ->. unfold Dict.mem.
    destruct (Dict.get doc_id (documents s)); [reflexivity | discriminate]. }
  destruct (delete_document_cases e doc_id s)
    as [[Hm _]|(_ & Hr & _ & Hdocs & _ & Hmd)]; [congruence|].
  fold s1 in Hdocs, Hmd.
  assert (Hmem1 : Dict.mem doc_id (documents s1) = true) by now rewrite Hdocs.
  split_and!.
  - exact Hr.
  - unfold bind, ret. pose proof (get_document_lookup doc_id s1) as Hg.
    pose proof (get_document_effect doc_id s1) as He.
    destruct (get_document doc_id s1) as [[v|ex] s0]; simpl in *; [|discriminate].
    injection Hg as ->. unfold Dict.mem in Hmem1.
    now destruct (Dict.get doc_id (documents s1)).
  - unfold bind, ret. now rewrite (add_document_known e' doc_id content md s1 Hmem1).
  - intros [m Hm]. unfold is_active. rewrite Hmd, dict_get_mutate, String.eqb_refl, Hm.
    simpl. by simplify_map_eq.
Qed.

End DocumentFacts.

(** ** From a position of the index to its document and chunk *)

Section Positions.
Context `{Backend}.
Implicit Types (s : store) (e : env) (docs : dict doc_data) (metas : dict attrs)
  (ix : list vec).

Lemma range_of_values (m : attrs) a b :
  range_of m = Some (a, b) ->
  exists va vb,
    m !! "start_index" = Some va /\ m !! "end_index" = Some vb
    /\ as_int va = Some a /\ as_int vb = Some b.
Proof.
  unfold range_of. destruct (m !! "start_index") as [va|]; [|discriminate].
  destruct (m !! "end_index") as [vb|]; [|discriminate].
  destruct (as_int va) as [a'|] eqn:Ha; [|discriminate].
  destruct (as_int vb) as [b'|] eqn:Hb; [|discriminate].
  intros [= -> ->]. eauto 10.
Qed.

Lemma between_range (m : attrs) a b idx :
  range_of m = Some (a, b) ->
  between (default (VInt (-1)) (m !! "start_index")) idx
          (default (VInt (-1)) (m !! "end_index"))
  = Ok ((a <=? idx) && (idx <=? b)).
Proof.
  intros Hr. destruct (range_of_values m a b Hr) as (va & vb & -> & -> & Ha & Hb).
  unfold between. simpl. rewrite Ha, Hb. now destruct (a <=? idx).
Qed.

Lemma dict_get_cons_ne {V} (k k0 : string) (v0 : V) (d : dict V) :
  is_Some (Dict.get k d) -> k0 ∉ Dict.keys d ->
  Dict.get k ((k0, v0) :: d) = Dict.get k d.
Proof.
  intros Hk Hk0. simpl. destruct (String.eqb_spec k k0) as [->|]; [|reflexivity].
  now apply dict_get_Some_keys in Hk.
Qed.

(** In a laid out store every position of the index is found, by the
    linear search, in the range of one document, and the vector at the
    position is the embedding of the chunk of that document it stands
    for. *)
Lemma laid_out_resolve docs :
  forall metas ix start idx,
    laid_out start docs metas ix -> NoDup (Dict.keys docs) ->
    start <= idx < start + Z.of_nat (length ix) ->
    exists doc_id d m a,
      find_doc metas idx = Ok (Some doc_id)
      /\ Dict.get doc_id docs = Some d
      /\ Dict.get doc_id metas = Some m
      /\ range_of m = Some (a, a + Z.of_nat (length (chunks d)) - 1)
      /\ a <= idx <= a + Z.of_nat (length (chunks d)) - 1
      /\ ix !! Z.to_nat (idx - start) = embed <$> (chunks d !! Z.to_nat (idx - a)).
Proof.
  induction docs as [|[id0 d0] docs IH]; intros [|[id0' m0] metas] ix st idx Hl Hnd Hidx;
    simpl in Hl; try contradiction.
  - subst ix. simpl in Hidx. lia.
  - destruct Hl as (-> & Hr0 & Htake & Hl).
    pose proof (take_eq_length _ _ _ Htake (length_map _ _)) as Hle.
    pose proof (laid_out_keys _ _ _ _ Hl) as Hkeys.
    unfold Dict.keys in Hnd. simpl in Hnd. apply NoDup_cons in Hnd as [Hnotin Hnd].
    cbn [find_doc]. rewrite (between_range _ _ _ idx Hr0).
    destruct (Z.le_gt_cases idx (st + Z.of_nat (length (chunks d0)) - 1)) as [Hin|Hout].
    + replace ((st <=? idx) && (idx <=? st + Z.of_nat (length (chunks d0)) - 1))
        with true by (symmetry; apply andb_true_intro; split; apply Z.leb_le; lia).
      exists id0', d0, m0, st. simpl. rewrite String.eqb_refl.
      do 4 (split; [reflexivity || assumption|]). split; [lia|].
      change (map embed (chunks d0)) with (embed <$> chunks d0) in Htake.
      rewrite <- list_lookup_fmap, <- Htake. symmetry. apply lookup_take_lt. lia.
    + replace ((st <=? idx) && (idx <=? st + Z.of_nat (length (chunks d0)) - 1))
        with false
        by (symmetry; apply andb_false_intro2; apply Z.leb_gt; lia).
      destruct (IH metas _ _ idx Hl Hnd) as (doc_id & d & m & a & Hf & Hd & Hm & Hr & Ha & Hv).
      { rewrite length_drop. lia. }
      exists doc_id, d, m, a.
      split; [exact Hf|]. split; [rewrite dict_get_cons_ne; eauto|].
      split; [rewrite dict_get_cons_ne; eauto; now rewrite Hkeys|].
      split; [exact Hr|]. split; [exact Ha|].
      rewrite lookup_drop in Hv. rewrite <- Hv. f_equal. lia.
Qed.

Lemma contiguous_resolve s idx :
  contiguous s ->
  0 <= idx < ntotal s ->
  exists doc_id d chunk,
    _find_doc_by_index s idx = Ok (Some doc_id)
    /\ Dict.get doc_id (documents s) = Some d
    /\ _get_chunk_content s doc_id idx = Ok chunk
    /\ chunk ∈ chunks d
    /\ index s !! Z.to_nat idx = Some (embed chunk).
Proof.
  intros [Hnd Hl] Hidx.
  destruct (laid_out_resolve _ _ _ 0 idx Hl Hnd) as (doc_id & d & m & a & Hf & Hd & Hm & Hr & Ha & Hv).
  { unfold ntotal in Hidx. lia. }
  destruct (range_of_values _ _ _ Hr) as (va & vb & Hva & _ & Hia & _).
  assert (Hlt : (Z.to_nat (idx - a) < length (chunks d))%nat) by lia.
  destruct (lookup_lt_is_Some_2 _ _ Hlt) as [chunk Hchunk].
  exists doc_id, d, chunk. split_and!; auto.
  - unfold _get_chunk_content. rewrite Hd, Hm. simpl. rewrite Hva. simpl. rewrite Hia.
    replace ((0 <=? idx - a) && (idx - a <? Z.of_nat (length (chunks d)))) with true
      by (symmetry; apply andb_true_intro; split; [apply Z.leb_le | apply Z.ltb_lt]; lia).
    now rewrite nth_lookup, Hchunk.
  - apply list_elem_of_lookup. eauto.
  - rewrite Z.sub_0_r in Hv. now rewrite Hv, Hchunk.
Qed.


Lemma find_doc_covers metas idx doc_id :
  find_doc metas idx = Ok (Some doc_id) ->
  exists m,
    (doc_id, m) ∈ metas
    /\ between (default (VInt (-1)) (m !! "start_index")) idx
               (default (VInt (-1)) (m !! "end_index")) = Ok true.
Proof.
  induction metas as [|[id0 m0] metas IH]; simpl; [discriminate|].
  destruct (between _ idx _) as [[|]|] eqn:Hb; [| |discriminate].
  - intros [= <-]. exists m0. split; [now left | exact Hb].
  - intros Hf. destruct (IH Hf) as (m & Hin & Hm). exists m. split; [now right | exact Hm].
Qed.

Lemma laid_out_has_range docs :
  forall metas ix start doc_id m,
    laid_out start docs metas ix -> (doc_id, m) ∈ metas -> is_Some (range_of m).
Proof.
  induction docs as [|[id0 d0] docs IH]; intros [|[id0' m0] metas] ix st doc_id m Hl Hin;
    simpl in Hl; try contradiction; [inversion Hin|].
  destruct Hl as (-> & Hr0 & _ & Hl). apply elem_of_cons in Hin as [[= -> ->]|Hin]; eauto.
Qed.

Lemma search_loop_from s k thr hits :
  forall results seen res,
    search_loop s k thr hits results seen = Ok res ->
    Forall (hit_from s) results -> Forall (hit_from s) res.
Proof.
  induction hits as [|[score idx] hits IH]; intros results seen res Hrun Hres; simpl in Hrun.
  - now injection Hrun as <-.
  - destruct (Qltb score thr); [eauto|].
    destruct (_find_doc_by_index s idx) as [[doc_id|]|] eqn:Hf; [|eauto|discriminate].
    destruct (negb (is_empty doc_id) && negb (bool_decide (doc_id ∈ seen))); [|eauto].
    destruct (_get_chunk_content s doc_id idx) as [chunk|] eqn:Hc; [|discriminate].
    match type of Hrun with context [results ++ [?x]] => set (h := x) in Hrun end.
    assert (Hres' : Forall (hit_from s) (results ++ [h])).
    { apply Forall_app. split; [exact Hres|]. constructor; [|constructor].
      exists idx. subst h. simpl. auto. }
    destruct (_ >=? k); [now injection Hrun as <- | eauto].
Qed.

(** X15.  What [search_similar] returns is in the store: in every run in which
    no [rebuild_index] failed, each result names a stored document, hands
    out its raw text as [content], and one of its chunks as
    [chunk_hit]. *)
Theorem search_results_are_stored cs e query k thr res h :
  rebuilds_succeed cs empty_store ->
  (search_similar e query k thr (run cs empty_store)).1 = Ok res ->
  h ∈ res ->
  exists d,
    Dict.get (r_doc_id h) (documents (run cs empty_store)) = Some d
    /\ r_content h = text d
    /\ r_chunk_hit h ∈ chunks d.
Proof.
  intros Hok Hs Hh.
  pose proof (contiguous_run cs empty_store contiguous_empty Hok) as Hcont.
  set (s := run cs empty_store) in *.
  assert (Hfrom : hit_from s h).
  { destruct (search_similar_run e query k thr s) as [Hr|(row & rows & res' & _ & Hl & Hr)];
      rewrite Hr in Hs; simpl in Hs; injection Hs as <-; [inversion Hh|].
    pose proof (search_loop_from _ _ _ _ _ _ _ Hl (List.Forall_nil _)) as Hall.
    rewrite Forall_forall in Hall. now apply Hall. }
  destruct Hfrom as (idx & Hf & Hc & Hcontent).
  destruct (find_doc_covers _ _ _ Hf) as (m & Hin & Hb).
  destruct Hcont as [Hnd Hl].
  destruct (laid_out_has_range _ _ _ _ _ _ Hl Hin) as [[a b] Hr].
  rewrite (between_range _ _ _ idx Hr) in Hb. injection Hb as Hb.
  apply andb_prop in Hb as [Ha Hb]. apply Z.leb_le in Ha, Hb.
  assert (Hcov : covers (a, b) idx) by (unfold covers; simpl; lia).
  pose proof (laid_out_bounds _ _ _ _ _ _ _ _ Hl Hin Hr Hcov) as Hidx.
  destruct (contiguous_resolve s idx (conj Hnd Hl)) as (id' & d & chunk & Hf' & Hd & Hc' & Hmem & _).
  { unfold ntotal. lia. }
  unfold _find_doc_by_index in *. rewrite Hf in Hf'. injection Hf' as <-.
  rewrite Hc in Hc'. injection Hc' as <-.
  exists d. rewrite Hcontent, Hd. auto.
Qed.

End Positions.

(** ** Invariants entry by entry *)

Section Entries.
Context `{Backend}.
Implicit Types (s : store) (e : env).

Lemma dict_set_forall {V} (Q : V -> Prop) (k : string) (v : V) (d : dict V) :
  Forall (fun p => Q p.2) d -> Q v -> Forall (fun p => Q p.2) (Dict.set k v d).
Proof.
  intros Hd Hv. induction Hd as [|[k' v'] d Hp Hd IH]; simpl.
  - now repeat constructor.
  - destruct (String.eqb k k'); constructor; auto.
Qed.

Lemma dict_mutate_forall {V} (Q : V -> Prop) (k : string) (f : V -> V) (d : dict V) :
  Forall (fun p => Q p.2) d -> (forall v, Q v -> Q (f v)) ->
  Forall (fun p => Q p.2) (Dict.mutate k f d).
Proof.
  intros Hd Hf. induction Hd as [|[k' v'] d Hp Hd IH]; simpl; [constructor|].
  destruct (String.eqb k k'); constructor; auto. simpl in *. auto.
Qed.

Lemma dict_get_forall {V} (Q : V -> Prop) (k : string) (v : V) (d : dict V) :
  Forall (fun p => Q p.2) d -> Dict.get k d = Some v -> Q v.
Proof.
  intros Hd Hg. apply dict_get_elem_of in Hg. rewrite Forall_forall in Hd.
  exact (Hd (k, v) Hg).
Qed.

(** what holds of every metadata dictionary and is kept by the
    assignments of the loop of [rebuild_index] holds after the loop, in
    the store and in the new dictionary *)
Lemma rebuild_loop_forall (P : attrs -> Prop) e todo :
  (forall m start n, P m -> P (rebuilt_metadata start n m)) ->
  forall nm nd s,
    Forall (fun p => P p.2) (metadata s) ->
    Forall (fun x => P x.2) todo ->
    Forall (fun p => P p.2) nm ->
    let out := rebuild_loop e todo nm nd s in
    Forall (fun p => P p.2) (metadata out.2)
    /\ forall new, out.1 = Ok new -> Forall (fun p => P p.2) new.1.
Proof.
  intros Hre. induction todo as [|[[doc_id d] m] todo IH]; intros nm nd s Hs Htodo Hnm out.
  - subst out. simpl. split; [exact Hs|]. now intros new [= <-].
  - subst out. rewrite rebuild_loop_cons. inversion Htodo as [|x l Hm Htodo']; subst.
    simpl in Hm. destruct (encode_ok e (chunks d)).
    + apply IH; auto.
      * unfold turn. simpl. apply dict_mutate_forall; [exact Hs | auto].
      * apply dict_set_forall; auto.
    + simpl. split; [exact Hs | discriminate].
Qed.

(** a property of single metadata dictionaries that the three writers
    keep is an invariant of the store *)
Lemma metadata_forall_step (P : attrs -> Prop) s c :
  (forall m start n, P m -> P (rebuilt_metadata start n m)) ->
  (forall m v1 v2, P m -> P (<["deleted_at" := v1]> (<["deleted" := v2]> m))) ->
  (forall m doc_id n a b t mn,
      P (update [("doc_id", VStr doc_id); ("chunk_count", VInt n);
                 ("start_index", VInt a); ("end_index", VInt b);
                 ("created_at", VStr t); ("vector_model", VStr mn)] m)) ->
  Forall (fun p => P p.2) (metadata s) ->
  Forall (fun p => P p.2) (metadata (step s c)).
Proof.
  intros Hre Hdel Hadd Hs.
  destruct c as [e doc_id raw md|e q k thr|doc_id|e doc_id|e]; simpl.
  - destruct (add_document_cases e doc_id raw md s)
      as [[_ ->]|[(_ & _ & ->)|(_ & _ & _ & _ & _ & ->)]]; auto.
    apply dict_set_forall; auto.
  - now rewrite search_similar_effect.
  - now rewrite get_document_effect.
  - destruct (delete_document_cases e doc_id s) as [[_ ->]|(_ & _ & _ & _ & _ & ->)]; auto.
    apply dict_mutate_forall; auto.
  - rewrite rebuild_index_unfold.
    destruct (active_docs s (documents s)) as [todo|] eqn:Hact; [|exact Hs].
    destruct (active_docs_result _ _ _ Hact) as [_ Hmeta].
    assert (Htodo : Forall (fun x => P x.2) todo).
    { rewrite Forall_forall in Hmeta. apply Forall_forall. intros x Hx.
      exact (dict_get_forall P _ _ _ Hs (Hmeta x Hx)). }
    pose proof (rebuild_loop_forall P e todo Hre [] []
                  (set_id_to_index [] (set_index [] s)) Hs Htodo (List.Forall_nil _))
      as [Hout Hnew].
    cbn zeta in *.
    destruct (rebuild_loop e todo [] [] (set_id_to_index [] (set_index [] s)))
      as [[new|ex] s1]; simpl in *; [exact (Hnew new eq_refl) | exact Hout].
Qed.

Lemma stamped_reachable s : reachable s -> Forall (fun p => stamped p.2) (metadata s).
Proof.
  intros [cs ->]. unfold run.
  assert (Hgen : forall s0, Forall (fun p => stamped p.2) (metadata s0) ->
                            Forall (fun p => stamped p.2) (metadata (fold_left step cs s0))).
  { induction cs as [|c cs IH]; intros s0 Hs0; simpl; [exact Hs0|].
    apply IH, metadata_forall_step; auto.
    - intros m start n [t Ht]. exists t. unfold rebuilt_metadata. by simplify_map_eq.
    - intros m v1 v2 [t Ht]. exists t. by simplify_map_eq.
    - intros m doc_id n a b t mn. exists t. unfold update. simpl. by simplify_map_eq. }
  apply Hgen. constructor.
Qed.

(** a property of the record [add_document] stores holds of every
    document of a reachable store *)
Lemma documents_forall_reachable (Q : doc_data -> Prop) s :
  (forall raw, Q (new_document raw)) ->
  reachable s -> Forall (fun p => Q p.2) (documents s).
Proof.
  intros Hnew [cs ->].
  assert (Hgen : forall s0, well_formed s0 -> Forall (fun p => Q p.2) (documents s0) ->
                            Forall (fun p => Q p.2) (documents (run cs s0))).
  { unfold run. induction cs as [|c cs IH]; intros s0 Hwf Hs0; simpl; [exact Hs0|].
    apply IH; [now apply well_formed_step|].
    destruct c as [e doc_id raw md|e q k thr|doc_id|e doc_id|e]; simpl.
    - destruct (add_document_cases e doc_id raw md s0)
        as [[_ ->]|[(_ & _ & ->)|(_ & _ & _ & _ & -> & _)]]; auto.
      apply dict_set_forall; auto. apply Hnew.
    - now rewrite search_similar_effect.
    - now rewrite get_document_effect.
    - destruct (delete_document_cases e doc_id s0) as [[_ ->]|(_ & _ & _ & -> & _)]; auto.
    - destruct Hwf as (Hnd & _ & _).
      destruct (rebuild_index_failure e s0) as [Hok|(_ & -> & _)]; [|exact Hs0].
      destruct (rebuild_index_success e s0 Hnd Hok) as (_ & _ & _ & -> & _).
      unfold live_documents. rewrite Forall_forall in Hs0. apply Forall_forall.
      intros p Hp. apply Hs0. apply list_elem_of_In in Hp.
      apply filter_In in Hp as [Hp _]. now apply list_elem_of_In. }
  apply Hgen; [apply well_formed_empty | constructor].
Qed.

End Entries.

(** ** Sorting and slicing *)

Section Sorting.
Context {A : Type}.
Implicit Types (l : list A) (lt : A -> A -> bool).

Lemma insert_sorted_perm lt x l : insert_sorted lt x l ≡ₚ x :: l.
Proof.
  induction l as [|y l IH]; simpl; [reflexivity|].
  destruct (lt x y); [|reflexivity]. rewrite IH. apply perm_swap.
Qed.

Lemma sort_desc_perm lt l : sort_desc lt l ≡ₚ l.
Proof.
  unfold sort_desc. induction l as [|x l IH]; simpl; [reflexivity|].
  now rewrite insert_sorted_perm, IH.
Qed.

Lemma adjacent_cons (R : A -> A -> Prop) x l :
  adjacent R (x :: l) <-> match l with y :: _ => R x y | [] => True end /\ adjacent R l.
Proof. destruct l; simpl; tauto. Qed.

Lemma insert_sorted_adjacent lt x l :
  (forall a b, lt a b = true -> lt b a = false) ->
  adjacent (fun a b => lt a b = false) l ->
  adjacent (fun a b => lt a b = false) (insert_sorted lt x l).
Proof.
  intros Hasym. induction l as [|y l IH]; intros Hl; [exact I|].
  simpl insert_sorted. destruct (lt x y) eqn:Hxy.
  - apply adjacent_cons in Hl as [Hy Hl]. apply adjacent_cons. split; [|auto].
    destruct l as [|z l]; simpl.
    + now apply Hasym.
    + destruct (lt x z); [exact Hy | now apply Hasym].
  - apply adjacent_cons. split; [exact Hxy | exact Hl].
Qed.

Lemma sort_desc_adjacent lt l :
  (forall a b, lt a b = true -> lt b a = false) ->
  adjacent (fun a b => lt a b = false) (sort_desc lt l).
Proof.
  intros Hasym. unfold sort_desc. induction l as [|x l IH]; simpl; [exact I|].
  now apply insert_sorted_adjacent.
Qed.

Lemma adjacent_drop (R : A -> A -> Prop) n l : adjacent R l -> adjacent R (drop n l).
Proof.
  revert l. induction n as [|n IH]; intros [|x l] Hl; simpl; auto.
  apply IH. now apply adjacent_cons in Hl.
Qed.

Lemma adjacent_take (R : A -> A -> Prop) n l : adjacent R l -> adjacent R (take n l).
Proof.
  revert l. induction n as [|n IH]; intros [|x l] Hl; simpl; auto.
  apply adjacent_cons in Hl as [Hx Hl]. apply adjacent_cons. split; [|auto].
  destruct l as [|y l]; [now destruct n|]. now destruct n.
Qed.

Lemma slice_adjacent (R : A -> A -> Prop) i j l : adjacent R l -> adjacent R (slice i j l).
Proof. intros Hl. unfold slice. now apply adjacent_take, adjacent_drop. Qed.

Lemma slice_elem i j l x : x ∈ slice i j l -> x ∈ l.
Proof.
  unfold slice. intros Hx. apply elem_of_take in Hx as (k & Hk & _).
  rewrite lookup_drop in Hk. apply list_elem_of_lookup. eauto.
Qed.

Lemma slice_length i j l :
  0 <= i -> 0 <= j - i -> (length (slice i j l) <= Z.to_nat (j - i))%nat.
Proof.
  intros Hi Hj. unfold slice, clamp. rewrite length_take.
  destruct (Z.ltb_spec i 0); [lia|]. destruct (Z.ltb_spec j 0); lia.
Qed.

Lemma slice_all j l : Z.of_nat (length l) <= j -> slice 0 j l = l.
Proof.
  intros Hj. unfold slice, clamp. simpl.
  destruct (Z.ltb_spec j 0); [lia|].
  replace (Z.to_nat (Z.min 0 (Z.of_nat (length l)))) with 0%nat by lia.
  rewrite drop_0, Nat.sub_0_r. apply take_ge. lia.
Qed.

Lemma slice_to_length j l : 0 <= j -> (length (slice_to j l) <= Z.to_nat j)%nat.
Proof.
  intros Hj. unfold slice_to, clamp. rewrite length_take.
  destruct (Z.ltb_spec j 0); lia.
Qed.

Lemma slice_to_sublist j l : sublist (slice_to j l) l.
Proof. unfold slice_to. apply sublist_take. Qed.

End Sorting.

Lemma lt_key_asym (a b : value) : lt_key a b = true -> lt_key b a = false.
Proof.
  assert (Hz : forall x y, (x <? y) = true -> (y <? x) = false)
    by (intros x y Hlt; apply Z.ltb_lt in Hlt; apply Z.ltb_ge; lia).
  unfold lt_key, py_lt.
  destruct a as [|x|x|x], b as [|y|y|y]; simpl; try discriminate; try apply Hz.
  unfold String.ltb. rewrite (String.compare_antisym y x).
  now destruct (String.compare x y).
Qed.

(** ** Listing and counting *)

Section Listing.
Context `{Backend}.
Implicit Types (s : store) (e : env).

Lemma comparable_strings (keys : list value) :
  Forall (fun k => exists t, k = VStr t) keys -> comparable_keys keys = true.
Proof.
  intros Hall. destruct keys as [|k [|k' keys]]; [reflexivity..|].
  unfold comparable_keys. apply forallb_forall. intros x Hx.
  apply bool_decide_eq_true. rewrite Forall_forall in Hall.
  destruct (Hall k) as [t ->]; [now left|].
  destruct (Hall x) as [t' ->]; [now apply list_elem_of_In|]. simpl. eauto.
Qed.

Lemma list_documents_unfold limit offset s :
  list_documents limit offset s
  = (let active_docs := List.filter (fun p => not_deleted p.2) (metadata s) in
     if comparable_keys (map (fun p => created_key p.2) active_docs) then
       Ok (slice offset (offset + limit)
             (sort_desc (fun x y => lt_key (created_key x.2) (created_key y.2))
                active_docs))
     else Raise TypeError, s).
Proof.
  unfold list_documents, bind, get_store, ret, raise. cbn zeta.
  now destruct (comparable_keys _).
Qed.

(** X16.  [list_documents] on a reachable store returns a page and leaves the
    store as it is.  The page holds entries of [self.metadata] that are
    not marked as deleted, no entry is followed by one created later, and
    for an offset and a limit that are not negative it has at most [limit]
    entries; with offset 0 and a limit that is large enough it holds
    every document that is not deleted, once. *)
Theorem list_documents_page limit offset s :
  reachable s ->
  exists page,
    list_documents limit offset s = (Ok page, s)
    /\ (forall p, p ∈ page -> p ∈ metadata s /\ not_deleted p.2 = true)
    /\ adjacent (fun p q => lt_key (created_key p.2) (created_key q.2) = false) page
    /\ (0 <= offset -> 0 <= limit -> (length page <= Z.to_nat limit)%nat)
    /\ (offset = 0 -> Z.of_nat (length (metadata s)) <= limit ->
        page ≡ₚ List.filter (fun p => not_deleted p.2) (metadata s)).
Proof.
  intros Hreach. pose proof (stamped_reachable s Hreach) as Hst.
  rewrite list_documents_unfold. cbn zeta.
  set (active := List.filter (fun p => not_deleted p.2) (metadata s)).
  set (lt := fun x y : string * attrs => lt_key (created_key x.2) (created_key y.2)).
  assert (Hcmp : comparable_keys (map (fun p => created_key p.2) active) = true).
  { apply comparable_strings. apply Forall_forall. intros k Hk.
    apply list_elem_of_fmap in Hk as (p & -> & Hp).
    apply list_elem_of_In, filter_In in Hp as [Hp _]. apply list_elem_of_In in Hp.
    rewrite Forall_forall in Hst. destruct (Hst p Hp) as [t Ht].
    exists t. unfold created_key. now rewrite Ht. }
  rewrite Hcmp. eexists. split; [reflexivity|]. split_and!.
  - intros p Hp. apply slice_elem in Hp. rewrite (sort_desc_perm lt active) in Hp.
    apply list_elem_of_In, filter_In in Hp as [Hp Hd]. split; [now apply list_elem_of_In | exact Hd].
  - apply slice_adjacent, sort_desc_adjacent. intros a b. apply lt_key_asym.
  - intros Ho Hl. pose proof (slice_length offset (offset + limit) (sort_desc lt active) Ho) as Hlen.
    replace (offset + limit - offset) with limit in Hlen by lia. auto.
  - intros -> Hl. rewrite slice_all; [apply sort_desc_perm|].
    rewrite (sort_desc_perm lt active). unfold active.
    pose proof (filter_length_le (fun p => not_deleted p.2) (metadata s)). lia.
Qed.

Lemma laid_out_length docs :
  forall metas ix start,
    laid_out start docs metas ix ->
    Z.of_nat (length ix)
    = fold_right Z.add 0 (map (fun p => Z.of_nat (length (chunks p.2))) docs)
    /\ length metas = length docs.
Proof.
  induction docs as [|[id0 d0] docs IH]; intros [|[id0' m0] metas] ix st Hl;
    simpl in Hl; try contradiction.
  - now subst ix.
  - destruct Hl as (_ & _ & Htake & Hl).
    pose proof (take_eq_length _ _ _ Htake (length_map _ _)) as Hle.
    destruct (IH _ _ _ Hl) as [IH1 IH2]. rewrite length_drop in IH1.
    simpl. split; [lia | now rewrite IH2].
Qed.

(** X17.  [get_stats] after a run in which no [rebuild_index] failed: the
    index holds as many vectors as the documents count chunks, and the
    documents that are not deleted are among the stored ones. *)
Theorem get_stats_consistent cs vector_dim :
  rebuilds_succeed cs empty_store ->
  exists st,
    get_stats vector_dim (run cs empty_store) = (Ok st, run cs empty_store)
    /\ index_size st = total_chunks st
    /\ 0 <= active_documents st <= total_documents st
    /\ total_documents st = Z.of_nat (length (documents (run cs empty_store))).
Proof.
  intros Hok.
  destruct (contiguous_run cs empty_store contiguous_empty Hok) as [Hnd Hl].
  assert (Hcount : Forall (fun p => counted p.2) (documents (run cs empty_store))).
  { apply documents_forall_reachable; [intros raw; reflexivity | now exists cs]. }
  set (s := run cs empty_store) in *.
  destruct (laid_out_length _ _ _ _ Hl) as [Hlen Hsame].
  unfold get_stats, bind, get_store, ret. eexists. split; [reflexivity|]. simpl.
  split_and!; try reflexivity.
  - unfold ntotal. rewrite Hlen. f_equal. apply map_ext_in. intros p Hp.
    rewrite Forall_forall in Hcount. symmetry. apply (Hcount p). now apply list_elem_of_In.
  - lia.
  - pose proof (filter_length_le (fun p => not_deleted p.2) (metadata s)). lia.
Qed.

(** X18.  Every document of a reachable store has at most one chunk: its
    normalized text as a whole, with the count that goes with it. *)
Theorem stored_document_is_one_chunk s doc_id d :
  reachable s ->
  Dict.get doc_id (documents s) = Some d ->
  processed_text d = _preprocess_text (text d)
  /\ chunks d = (if is_empty (processed_text d) then [] else [processed_text d])
  /\ chunk_count d = (if is_empty (processed_text d) then 0 else 1).
Proof.
  intros Hreach Hget.
  set (Q := fun d : doc_data =>
              processed_text d = _preprocess_text (text d)
              /\ chunks d = (if is_empty (processed_text d) then []
                             else [processed_text d])
              /\ chunk_count d = (if is_empty (processed_text d) then 0 else 1)).
  assert (Hall : Forall (fun p => Q p.2) (documents s)).
  { apply documents_forall_reachable; [|exact Hreach].
    intros raw. unfold Q. simpl. rewrite rechunk_whole_text.
    now destruct (is_empty (_preprocess_text raw)). }
  exact (dict_get_forall Q doc_id d (documents s) Hall Hget).
Qed.

End Listing.

(** ** Searching through the [DocumentManager] *)

Section Posts.
Context `{Backend}.
Implicit Types (s : store) (e : env).

Lemma search_similar_sound e query k thr s :
  exists res,
    search_similar e query k thr s = (Ok res, s)
    /\ NoDup (map r_doc_id res) /\ Forall (hit_ok s thr) res.
Proof.
  destruct (search_similar_run e query k thr s) as [Hs|(row & rows & res & _ & Hl & Hs)].
  - exists []. split_and!; auto; constructor.
  - exists res. split; [exact Hs|].
    apply (search_loop_invariant _ _ _ _ _ _ _ Hl);
      [apply NoDup_nil_2 | intros h Hh; inversion Hh | constructor].
Qed.

Lemma filter_sublist {A} (f : A -> bool) (l : list A) : sublist (List.filter f l) l.
Proof.
  induction l as [|x l IH]; simpl; [constructor|].
  destruct (f x); now constructor.
Qed.

Lemma sublist_forall {A} (P : A -> Prop) (l1 l2 : list A) :
  sublist l1 l2 -> Forall P l2 -> Forall P l1.
Proof.
  intros Hsub Hall. apply Forall_forall. intros x Hx. rewrite Forall_forall in Hall.
  apply Hall. eapply elem_of_sublist; eauto.
Qed.

(** X19.  [search_related_posts] never raises and leaves the store as it is.
    Its page is taken, in order, from what [search_similar] returns for
    [2 * k] results at threshold 0.5: no document twice, no score under
    the threshold, only the [post_type] asked for when one is given, and
    at most [k] entries for a [k] that is not negative. *)
Theorem search_related_posts_page e query post_type k s :
  exists page res,
    DocumentManager.search_related_posts e query post_type k s = (Ok page, s)
    /\ search_similar e query (k * 2) (1 # 2) s = (Ok res, s)
    /\ sublist page res
    /\ NoDup (map r_doc_id page)
    /\ Forall (fun h => (1 # 2 <= r_score h)%Q) page
    /\ (0 <= k -> (length page <= Z.to_nat k)%nat)
    /\ (forall t, post_type = Some t -> t <> EmptyString ->
                  Forall (fun h => r_metadata h !! "post_type" = Some (VStr t)) page).
Proof.
  destruct (search_similar_sound e query (k * 2) (1 # 2) s) as (res & Hs & Hnd & Hok).
  unfold DocumentManager.search_related_posts, try_except, bind, ret. rewrite Hs.
  set (kept := match post_type with
               | Some t => if negb (is_empty t)
                           then List.filter (DocumentManager.has_post_type t) res else res
               | None => res
               end).
  assert (Hkept : sublist kept res).
  { unfold kept. destruct post_type as [t|]; [|reflexivity].
    destruct (negb (is_empty t)); [apply filter_sublist | reflexivity]. }
  assert (Hpage : sublist (slice_to k kept) res)
    by (etransitivity; [apply slice_to_sublist | exact Hkept]).
  exists (slice_to k kept), res. split_and!; auto.
  - eapply sublist_NoDup; [exact Hnd|]. now apply (fmap_sublist r_doc_id).
  - eapply sublist_forall; [exact Hpage|]. eapply Forall_impl; [exact Hok|].
    now intros h [Hh _].
  - apply slice_to_length.
  - intros t -> Ht. eapply sublist_forall; [apply slice_to_sublist|].
    unfold kept. rewrite (is_empty_false t Ht). simpl.
    apply Forall_forall. intros h Hh. apply list_elem_of_In, filter_In in Hh as [_ Hh].
    unfold DocumentManager.has_post_type in Hh.
    destruct (r_metadata h !! "post_type") as [[| | |t']|]; try discriminate.
    apply String.eqb_eq in Hh. now subst.
Qed.

End Posts.

(** ** Rebuilding twice *)

Section RebuildTwice.
Context `{Backend}.
Implicit Types (s : store) (e : env) (todo : list (string * doc_data * attrs)).





End RebuildTwice.

(** ** The small instance at work *)

Import Toy.

#[export] Instance toy_search_bounded : SearchBounded.
Proof.
  intros ix queries k rows row Hs Hrow. cbn in Hs. unfold best in Hs.
  destruct (k <=? 0); [discriminate|]. injection Hs as <-.
  apply list_elem_of_fmap in Hrow as [q [-> _]].
  rewrite length_take. lia.
Qed.

(** C1.  A document marked as deleted is still returned by
    [search_similar]: after [add_document("d1", "banana")] and a
    successful [delete_document("d1")], the query ["a"] finds [d1]. *)
Theorem deleted_document_still_found :
  (delete_document up "d1" one_doc).1 = Ok true
  /\ is_active d1_deleted "d1" = false
  /\ found (search_similar up "a" 5 (1 # 2) d1_deleted).1 = Some ["d1"].
Proof. vm_compute. auto. Qed.

(** C2.  A [rebuild_index] that fails on the third document returns
    [False] and leaves another store behind: the index holds the one
    vector embedded before the failure, and the metadata of [d2], the
    document handled before it, carries its new range. *)
Theorem rebuild_index_failure_changes_store :
  let s := three_docs_d1_deleted in
  let s' := (rebuild_index flaky s).2 in
  (rebuild_index flaky s).1 = Ok false
  /\ index s = [[3; 1]; [2; 2]; [1; 1]] /\ index s' = [[2; 2]]
  /\ range s "d2" = Some (1, 1) /\ range s' "d2" = Some (0, 0)
  /\ documents s' = documents s.
Proof. vm_compute. auto 10. Qed.

(** C4.  After the same failed [rebuild_index], a store reached from the
    empty one breaks the range invariant: the ranges of [d1] and [d2]
    both hold position 0. *)
Theorem range_invariant_broken_by_failed_rebuild :
  let s' := run [RebuildIndex flaky] three_docs_d1_deleted in
  reachable s' /\ ~ range_invariant s'.
Proof.
  split.
  - exists [AddDocument up "d1" "banana" None; AddDocument up "d2" "abba" None;
            AddDocument up "d3" "cab" None; DeleteDocument up "d1";
            RebuildIndex flaky].
    reflexivity.
  - intros (Hdisj & _ & _).
    apply (Hdisj "d1" "d2" (0, 0) (0, 0) 0); unfold covers; simpl;
      [discriminate | vm_compute; reflexivity | vm_compute; reflexivity | lia | lia].
Qed.

(** C6 (as stated, refuted).  With a document in the index and an
    embedding model that raises on the query, [search_similar] does not
    raise. *)
Lemma embed_failure_is_swallowed :
  index one_doc <> [] /\ encode_ok down ["a"] = false
  /\ ~ exists ex, (search_similar down "a" 5 (1 # 2) one_doc).1 = Raise ex.
Proof.
  split; [|split].
  - vm_compute. discriminate.
  - reflexivity.
  - intros [ex Hex]. vm_compute in Hex. discriminate.
Qed.

Lemma add_document_existing_witness :
  add_document up "d1" "another text" None one_doc = (Ok true, one_doc).
Proof. apply add_document_existing. vm_compute. reflexivity. Defined.


Lemma search_similar_embed_failure_witness :
  search_similar down "a" 5 (1 # 2) one_doc = (Ok [], one_doc).
Proof. apply search_similar_embed_failure. left. reflexivity. Defined.

Lemma add_document_metadata_witness :
  exists s' m,
    add_document up "d2" "abba" (Some {[ "doc_id" := VInt 7; "type" := VStr "note" ]}) one_doc
      = (Ok true, s')
    /\ Dict.get "d2" (metadata s') = Some m
    /\ m !! "doc_id" = Some (VStr "d2")
    /\ m !! "start_index" = Some (VInt 1)
    /\ m !! "type" = Some (VStr "note").
Proof.
  destruct (add_document_metadata up "d2" "abba"
              (Some {[ "doc_id" := VInt 7; "type" := VStr "note" ]}) one_doc)
    as (s' & m & Hadd & Hget & Hid & _ & Hstart & _ & _ & _ & Hother & _).
  - vm_compute. reflexivity.
  - reflexivity.
  - exists s', m. split_and!; try assumption.
    rewrite Hother; [vm_compute; reflexivity|].
    unfold store_keys. intros Hin.
    repeat (apply elem_of_cons in Hin as [Hin|Hin]; [discriminate|]).
    inversion Hin.
Defined.



Lemma deleted_document_gone_after_rebuild_witness :
  (get_document "d1"
     (rebuild_index up (delete_document up "d1" three_docs).2).2).1 = Ok None.
Proof.
  apply deleted_document_gone_after_rebuild.
  - exists [AddDocument up "d1" "banana" None; AddDocument up "d2" "abba" None;
            AddDocument up "d3" "cab" None].
    reflexivity.
  - vm_compute. reflexivity.
  - vm_compute. reflexivity.
Defined.

Lemma failed_rebuild_empties_index_witness :
  rebuild_index down one_doc = (Ok false, set_id_to_index [] (set_index [] one_doc)).
Proof.
  apply failed_rebuild_empties_index.
  - apply reachable_well_formed. exists [AddDocument up "d1" "banana" None]. reflexivity.
  - vm_compute. discriminate.
  - intros texts. reflexivity.
Defined.


Lemma split_text_single_paragraph_witness :
  _split_text "  to be or not to be " 1 0 = [strip "  to be or not to be "].
Proof.
  apply split_text_single_paragraph; vm_compute; reflexivity.
Defined.

Lemma add_document_embed_failure_witness :
  add_document down "d2" "abba" None one_doc = (Ok false, one_doc).
Proof.
  apply add_document_embed_failure; vm_compute; reflexivity.
Defined.


Lemma delete_document_unknown_witness :
  delete_document up "d9" one_doc = (Ok false, one_doc).
Proof.
  apply delete_document_unknown. vm_compute. reflexivity.
Defined.

Lemma delete_document_soft_witness :
  (delete_document up "d1" three_docs).1 = Ok true
  /\ index (delete_document up "d1" three_docs).2 = index three_docs
  /\ forall doc_id',
       range (delete_document up "d1" three_docs).2 doc_id' = range three_docs doc_id'
       /\ match (get_document doc_id' three_docs).1,
                (get_document doc_id' (delete_document up "d1" three_docs).2).1 with
          | Ok (Some v), Ok (Some v') =>
              g_content v' = g_content v /\ g_chunks v' = g_chunks v
              /\ forall key, key <> "deleted" -> key <> "deleted_at" ->
                             g_metadata v' !! key = g_metadata v !! key
          | Ok None, Ok None => True
          | _, _ => False
          end.
Proof.
  apply (delete_document_soft up "d1" three_docs). vm_compute. reflexivity.
Defined.

Lemma deleted_document_is_not_replaced_witness :
  let s1 := (DocumentManager.remove_document up "d1" one_doc).2 in
  (DocumentManager.remove_document up "d1" one_doc).1 = Ok true
  /\ (DocumentManager.document_exists "d1" s1).1 = Ok true
  /\ DocumentManager.add_document up "d1" "a new text" None true s1 = (Ok true, s1)
  /\ (is_Some (Dict.get "d1" (metadata one_doc)) -> is_active s1 "d1" = false).
Proof.
  apply (deleted_document_is_not_replaced up up "d1" "a new text" None true one_doc).
  vm_compute. reflexivity.
Defined.


Lemma search_results_are_stored_witness :
  let cs := [AddDocument up "d1" "banana" None; AddDocument up "d2" "abba" None] in
  exists res h,
    (search_similar up "a" 5 (1 # 2) (run cs empty_store)).1 = Ok res
    /\ h ∈ res
    /\ exists d,
         Dict.get (r_doc_id h) (documents (run cs empty_store)) = Some d
         /\ r_content h = text d
         /\ r_chunk_hit h ∈ chunks d.
Proof.
  intros cs.
  destruct (search_similar up "a" 5 (1 # 2) (run cs empty_store)).1 as [[|h res]|ex] eqn:Hs;
    [vm_compute in Hs; discriminate | | vm_compute in Hs; discriminate].
  exists (h :: res), h. split; [reflexivity|]. split; [left|].
  apply (search_results_are_stored cs up "a" 5 (1 # 2) (h :: res) h).
  - simpl. split_and!; exact I.
  - exact Hs.
  - left.
Defined.

Lemma list_documents_page_witness :
  exists page,
    list_documents 2 0 three_docs_d1_deleted = (Ok page, three_docs_d1_deleted)
    /\ (forall p, p ∈ page -> p ∈ metadata three_docs_d1_deleted /\ not_deleted p.2 = true)
    /\ adjacent (fun p q => lt_key (created_key p.2) (created_key q.2) = false) page
    /\ (0 <= 0 -> 0 <= 2 -> (length page <= Z.to_nat 2)%nat)
    /\ (0 = 0 -> Z.of_nat (length (metadata three_docs_d1_deleted)) <= 2 ->
        page ≡ₚ List.filter (fun p => not_deleted p.2) (metadata three_docs_d1_deleted)).
Proof.
  apply (list_documents_page 2 0 three_docs_d1_deleted).
  exists [AddDocument up "d1" "banana" None; AddDocument up "d2" "abba" None;
          AddDocument up "d3" "cab" None; DeleteDocument up "d1"].
  reflexivity.
Defined.

Lemma get_stats_consistent_witness :
  let cs := [AddDocument up "d1" "banana" None; AddDocument up "d2" "abba" None;
             DeleteDocument up "d1"; AddDocument down "d3" "cab" None] in
  exists st,
    get_stats 384 (run cs empty_store) = (Ok st, run cs empty_store)
    /\ index_size st = total_chunks st
    /\ 0 <= active_documents st <= total_documents st
    /\ total_documents st = Z.of_nat (length (documents (run cs empty_store))).
Proof.
  apply (get_stats_consistent
           [AddDocument up "d1" "banana" None; AddDocument up "d2" "abba" None;
            DeleteDocument up "d1"; AddDocument down "d3" "cab" None] 384).
  simpl. split_and!; exact I.
Defined.

Lemma stored_document_is_one_chunk_witness :
  let d := {| text := "banana"; processed_text := "banana";
              chunks := ["banana"]; chunk_count := 1 |} in
  processed_text d = _preprocess_text (text d)
  /\ chunks d = (if is_empty (processed_text d) then [] else [processed_text d])
  /\ chunk_count d = (if is_empty (processed_text d) then 0 else 1).
Proof.
  apply (stored_document_is_one_chunk one_doc "d1").
  - exists [AddDocument up "d1" "banana" None]. reflexivity.
  - vm_compute. reflexivity.
Defined.

